(** * Boomerang: per-host remote execution and result aggregation

    A shallow embedding of the remote-execution engine of boomerang
    (the [main] package: [Machine.Run], [Machine.Connect],
    [Machine.setSSHPort], [executeCommands], [checkHostKey], and the
    fan-out loop of [main]), with the properties of its specification
    stated and proved over the embedding.

    Go strings are byte strings ([string]); [int], [int64] and
    [time.Duration] are [Z] with the 64-bit wrap-around written out where
    the code computes with them; slices are lists.  Everything the code
    gets from outside (the known_hosts file, the outcome and duration of
    every dial, the outcome of every remote session) is an explicit
    input, and every call that leaves the process is recorded as an
    [Event]. *)

From Stdlib Require Import ZArith Lia Bool Ascii String DecimalString.
From Equations Require Import Equations.
From stdpp Require Import base list strings gmap.

Local Open Scope string_scope.
Local Open Scope Z_scope.

(** ** The parts of the Go standard library the code calls *)

Module strings.

(** [strings.Contains(s, substr)]: [substr] occurs somewhere in [s]. *)
Fixpoint Contains (s substr : string) : bool :=
  String.prefix substr s ||
  match s with
  | EmptyString => false
  | String _ s' => Contains s' substr
  end.

(** [strings.Split(s, sep)] for a separator of one byte, the only way
    the code calls it ([" "]): every occurrence of the separator ends a
    field, so the result is never empty and has one more field than
    [s] has separators. *)
Fixpoint Split (s : string) (sep : ascii) : list string :=
  match s with
  | EmptyString => [EmptyString]
  | String a s' =>
      if Ascii.eqb a sep then EmptyString :: Split s' sep
      else match Split s' sep with
           | [] => [String a EmptyString]
           | f :: fs => String a f :: fs
           end
  end.

End strings.

Module strconv.

Definition maxUint64 : Z := 2 ^ 64 - 1.
Definition maxInt64 : Z := 2 ^ 63 - 1.

(** The two causes a [*strconv.NumError] can carry. *)
Inductive NumErr := ErrSyntax | ErrRange.

Definition isDigit (a : ascii) : bool :=
  (48 <=? Z.of_nat (nat_of_ascii a)) && (Z.of_nat (nat_of_ascii a) <=? 57).

(** The digit loop of [ParseUint] in base 10: a byte that is no digit
    is a syntax error, a value that leaves 64 bits is a range error,
    whichever comes first from the left. *)
Fixpoint parseDigits (s : string) (n : Z) : Z + NumErr :=
  match s with
  | EmptyString => inl n
  | String a s' =>
      if isDigit a then
        let n1 := n * 10 + (Z.of_nat (nat_of_ascii a) - 48) in
        if maxUint64 <? n1 then inr ErrRange else parseDigits s' n1
      else inr ErrSyntax
  end.

(** [strconv.Atoi] on a 64-bit platform: an optional sign, at least
    one decimal digit, nothing else, and a value that fits [int]. *)
Definition Atoi (s : string) : Z + NumErr :=
  let '(neg, body) :=
    match s with
    | String "-" r => (true, r)
    | String "+" r => (false, r)
    | _ => (false, s)
    end in
  match body with
  | EmptyString => inr ErrSyntax
  | _ =>
      match parseDigits body 0 with
      | inr e => inr e
      | inl un =>
          if neg then (if maxInt64 + 1 <? un then inr ErrRange else inl (- un))
          else (if maxInt64 <? un then inr ErrRange else inl un)
      end
  end.

(** [strconv.Itoa]: the decimal text of an [int]. *)
Definition Itoa (i : Z) : string := NilZero.string_of_int (Z.to_int i).

End strconv.

(** ** Errors

    A Go [error] is an interface value; the code looks at three things
    of it: its text ([Error()], which is what [%v], [%s] and [fmt.Sprint]
    print), its dynamic type ([%T], and the type switch of
    [executeCommands]), and its cause ([errors.Cause]).  The constructors
    are the error types that reach the code. *)

(** [ssh.Waitmsg]: the exit status a remote command reported. *)
Record Waitmsg := mkWaitmsg {
  status : Z;
  signal : string;
  msg : string
}.

Inductive error :=
| ExitError (w : Waitmsg)                  (* *ssh.ExitError *)
| ExitMissingError                         (* *ssh.ExitMissingError *)
| NumError (num : string) (e : strconv.NumErr)  (* *strconv.NumError of Atoi *)
| LibError (typ text : string)             (* any other error of a library *)
| fundamental (text : string)              (* errors.New, errors.Errorf *)
| withStack (cause : error) (text : string). (* errors.Wrap, errors.Wrapf *)

(** [ssh.PublicKey], identified by its wire encoding ([Marshal()]). *)
Definition PublicKey := string.

(** Library functions the code calls and the embedding leaves open. *)
Class GoLib := {
  Quote : string -> string;             (* strconv.Quote, behind %q and NumError *)
  TrimSpace : string -> string;         (* strings.TrimSpace *)
  DurationString : Z -> string;         (* time.Duration.String, behind %v *)
  ParseAuthorizedKey : string -> PublicKey + error  (* ssh.ParseAuthorizedKey *)
}.

Module errors.
Section errors.
Context `{GoLib}.

Definition New (text : string) : error := fundamental text.
Definition Wrap (err : error) (text : string) : error := withStack err text.

(** [Waitmsg.String()]. *)
Definition Waitmsg_String (w : Waitmsg) : string :=
  "Process exited with status " +:+ strconv.Itoa (status w)
    +:+ (if String.eqb (signal w) "" then "" else " from signal " +:+ signal w)
    +:+ (if String.eqb (msg w) "" then "" else ". Reason was: " +:+ msg w).

(** [err.Error()]. *)
Fixpoint Error (err : error) : string :=
  match err with
  | ExitError w => Waitmsg_String w
  | ExitMissingError =>
      "wait: remote command exited without exit status or exit signal"
  | NumError num e =>
      "strconv.Atoi: parsing " +:+ Quote num +:+ ": " +:+
      match e with
      | strconv.ErrSyntax => "invalid syntax"
      | strconv.ErrRange => "value out of range"
      end
  | LibError _ text => text
  | fundamental text => text
  | withStack cause text => text +:+ ": " +:+ Error cause
  end.

(** The [%T] of an error. *)
Definition TypeName (err : error) : string :=
  match err with
  | ExitError _ => "*ssh.ExitError"
  | ExitMissingError => "*ssh.ExitMissingError"
  | NumError _ _ => "*strconv.NumError"
  | LibError typ _ => typ
  | fundamental _ => "*errors.fundamental"
  | withStack _ _ => "*errors.withStack"
  end.

(** [errors.Cause]: the innermost error that wraps nothing. *)
Fixpoint Cause (err : error) : error :=
  match err with
  | withStack cause _ => Cause cause
  | _ => err
  end.

End errors.
End errors.

(** ** Data model (the structs of the main package) *)

Record SSHInfo := mkSSHInfo {
  HostName : string;
  Username : string;
  Port : string;
  Extras : option (list (string * string))   (* a nil map is [None] *)
}.

Record Stream := mkStream {
  Name : string;
  Stdout : string;
  Stderr : string;
  ExitCode : Z;
  StreamErrors : list string
}.

(** [RunLength] is kept in nanoseconds; the code stores the same span as
    a float64 number of seconds. *)
Record Machine := mkMachine {
  Connection : bool;
  RunLength : Z;
  ConnectionErrors : list string;
  StreamData : list Stream;
  Info : SSHInfo                      (* the embedded SSHInfo *)
}.

Record command := mkCommand {
  name : string;
  cmd : string;
  sudo : bool
}.

Inductive AuthMethod :=
| PublicKeys (signer : string)
| PublicKeysCallback (agent : string)
| Password (secret : string).

(** The fields of [State] that [Run] reads. *)
Record State := mkState {
  auth : AuthMethod;
  connTimeout : Z;
  retry : Z;
  retryWait : Z;
  hostKeyCheck : bool;
  commands : list command
}.

Definition NewMachine (s : SSHInfo) : Machine :=
  let m := {| Connection := false; RunLength := 0;
              ConnectionErrors := []; StreamData := []; Info := s |} in
  match Extras (Info m) with
  | None =>
      {| Connection := Connection m; RunLength := RunLength m;
         ConnectionErrors := ConnectionErrors m; StreamData := StreamData m;
         Info := {| HostName := HostName s; Username := Username s;
                    Port := Port s; Extras := Some [] |} |}
  | Some _ => m
  end.

Definition withPort (m : Machine) (p : string) : Machine :=
  {| Connection := Connection m; RunLength := RunLength m;
     ConnectionErrors := ConnectionErrors m; StreamData := StreamData m;
     Info := {| HostName := HostName (Info m); Username := Username (Info m);
                Port := p; Extras := Extras (Info m) |} |}.

(** The three assignments every failure path of [Run] makes. *)
Definition failed (m : Machine) (elapsed : Z) (text : string) : Machine :=
  {| Connection := false; RunLength := elapsed;
     ConnectionErrors := [text]; StreamData := StreamData m; Info := Info m |}.

(** ** Time and 64-bit arithmetic *)

(** The value an [int64] holds after an operation whose exact result is [z]. *)
Definition wrap64 (z : Z) : Z := (z + 2 ^ 63) mod 2 ^ 64 - 2 ^ 63.

(** [time.Second], in nanoseconds. *)
Definition Second : Z := 1000000000.

(** ** The outside world of one host task

    [golang.org/x/crypto/ssh] as the code sees it. *)

Inductive HostKeyCallback :=
| FixedHostKey (key : PublicKey)
| InsecureIgnoreHostKey.

Record ClientConfig := mkClientConfig {
  User : string;
  Auth : list AuthMethod;
  HostKeyCheck : HostKeyCallback;
  Timeout : Z
}.


(** [session.Run(cmd)]: the time it took, its error, and what it wrote
    to the two buffers. *)
Record RunOutcome := mkRunOutcome {
  run_took : Z;
  run_err : option error;
  run_stdout : string;
  run_stderr : string
}.

(** An open [*ssh.Client]: the answer to its [i]-th [NewSession] call
    (time taken, error if any) and to [Run] in that session. *)
Record Client := mkClient {
  NewSession : nat -> Z * option error;
  SessionRun : nat -> string -> RunOutcome
}.

Record DialOutcome := mkDialOutcome {
  dial_took : Z;
  dial_result : Client + error
}.

Record World := mkWorld {
  (** [$HOME/.ssh/known_hosts]: the error of [os.Open], or the lines the
      scanner yields *)
  known_hosts : list string + error;
  (** [ssh.Dial("tcp", addr, conf)], by attempt number *)
  dial : nat -> string -> ClientConfig -> DialOutcome;
  (** what [select] picks when the dial loop finishes at the very
      instant the context expires *)
  select_tie : bool
}.

(** Every call that leaves the process. *)
Inductive Event :=
| EvOpenKnownHosts
| EvDial (addr : string) (conf : ClientConfig)
| EvSleep (d : Z)
| EvNewSession
| EvSessionRun (cmdline : string).

Definition isDial (e : Event) : bool :=
  match e with EvDial _ _ => true | _ => false end.

(** ** checkHostKey *)

Section Engine.
Context `{GoLib}.

Definition hostport (host port : string) : string :=
  if String.eqb port "22" then host else "[" +:+ host +:+ "]:" +:+ port.

(** The scanner loop: [inl None] when it ends with [hostKey] still nil. *)
Fixpoint scanHostKey (lines : list string) (hp : string)
  : option PublicKey + error :=
  match lines with
  | [] => inl None
  | line :: rest =>
      let fields := strings.Split line " " in
      if negb (Nat.eqb (length fields) 3) then scanHostKey rest hp
      else if strings.Contains (nth 0 fields "") hp then
        match ParseAuthorizedKey line with
        | inr err =>
            inr (errors.Wrap err
                   ("error parsing [" +:+ Quote (nth 2 fields "") +:+ "]"))
        | inl key => inl (Some key)
        end
      else scanHostKey rest hp
  end.

Definition checkHostKey (w : World) (host port : string) : PublicKey + error :=
  match known_hosts w with
  | inr err => inr err
  | inl lines =>
      match scanHostKey lines (hostport host port) with
      | inr err => inr err
      | inl None =>
          inr (errors.Wrap (errors.New "no hostkey")
                 ("[" +:+ host +:+ ":" +:+ port +:+ "]"))
      | inl (Some key) => inl key
      end
  end.

(** ** setSSHPort *)

Definition setSSHPort (m : Machine) : Machine * option error :=
  if String.eqb (Port (Info m)) "" then (withPort m "22", None)
  else
    match strconv.Atoi (Port (Info m)) with
    | inr e =>
        (m, Some (errors.Wrap (NumError (Port (Info m)) e)
                    "converting port string to int failed"))
    | inl i =>
        if (i <? 1) || (65535 <? i) then
          (m, Some (errors.New ("invalid port: [" +:+ Port (Info m) +:+ "]")))
        else (withPort m (strconv.Itoa i), None)
    end.

End Engine.

(** ** Connect *)

(** What the dial goroutine ends with: the value it sends ([inl] on
    [ch], [inr] on [ec]), the time from its start to the send, and the
    calls it made. *)
Record LoopResult := mkLoopResult {
  loop_result : Client + error;
  loop_took : Z;
  loop_events : list Event
}.

(** [time.Sleep(d)] returns at once for [d <= 0]. *)
Definition sleepTime (d : Z) : Z := Z.max 0 d.

Section Connect.
Context `{GoLib}.

Definition address (m : Machine) : string :=
  HostName (Info m) +:+ ":" +:+ Port (Info m).

(** The goroutine of [Connect], started with retry budget [r]; [k]
    numbers the dial attempts. *)
Equations? dialLoop (w : World) (addr : string) (conf : ClientConfig)
    (wait r : Z) (k : nat) : LoopResult by wf (Z.to_nat r) lt :=
  dialLoop w addr conf wait r k
    with dial_result (dial w k addr conf), Z_lt_dec 0 r => {
    | inr err, left _ =>
        let rest := dialLoop w addr conf wait (r - 1) (S k) in
        {| loop_result := loop_result rest;
           loop_took := dial_took (dial w k addr conf)
                        + sleepTime (wrap64 (wait * Second)) + loop_took rest;
           loop_events := EvDial addr conf :: EvSleep (wrap64 (wait * Second))
                          :: loop_events rest |};
    | inr err, right _ =>
        {| loop_result := inr err;
           loop_took := dial_took (dial w k addr conf);
           loop_events := [EvDial addr conf] |};
    | inl client, _ =>
        {| loop_result := inl client;
           loop_took := dial_took (dial w k addr conf);
           loop_events := [EvDial addr conf] |} }.
Proof. lia. Qed.

(** [deadline] as line 301 computes it, on [int64]. *)
Definition deadline (timeout retry wait : Z) : Z :=
  wrap64 (wrap64 (timeout + wrap64 (wrap64 (retry * wait) * Second))
          + wrap64 (retry * timeout)).

(** When the context of [context.WithTimeout] expires, counted from
    the call: at once if the timeout is not positive. *)
Definition ctxExpiry (timeout retry wait : Z) : Z :=
  Z.max 0 (wrap64 (deadline timeout retry wait + wrap64 (1 * Second))).

Definition deadlineError (retry wait : Z) : error :=
  fundamental ("Retried " +:+ strconv.Itoa retry +:+ " time(s) with a "
               +:+ DurationString (wrap64 (wait * Second))
               +:+ " wait. No more retries!").

(** [Connect]: its two results, the time it took, and the dials and
    sleeps it caused.  In the timed branch the events are those of the
    goroutine, which goes on to its end also when the context expires
    first. *)
Definition Connect (w : World) (m : Machine) (conf : ClientConfig)
    (retry wait : Z) : (Client + error) * Z * list Event :=
  if Timeout conf =? 0 then
    let o := dial w 0%nat (address m) conf in
    match dial_result o with
    | inr err =>
        (inr (errors.Wrap err "could not establish machine connection"),
         dial_took o, [EvDial (address m) conf])
    | inl client => (inl client, dial_took o, [EvDial (address m) conf])
    end
  else
    let expiry := ctxExpiry (Timeout conf) retry wait in
    let g := dialLoop w (address m) conf wait retry 0%nat in
    if (loop_took g <? expiry) || ((loop_took g =? expiry) && select_tie w)
    then (loop_result g, loop_took g, loop_events g)
    else (inr (deadlineError retry wait), expiry, loop_events g).

End Connect.

(** ** executeCommands and Run *)

Definition LF : string := String (ascii_of_nat 10) EmptyString.

Section Run.
Context `{GoLib}.

(** One turn of the loop of [executeCommands], for the [i]-th command:
    the [Stream] it appends, the time it took, the calls it made. *)
Definition runCommand (client : Client) (i : nat) (c : command)
  : Stream * Z * list Event :=
  let sd := {| Name := name c; Stdout := ""; Stderr := ""; ExitCode := 0;
               StreamErrors := [] |} in
  match NewSession client i with
  | (took, Some err) =>
      ({| Name := Name sd; Stdout := Stdout sd; Stderr := Stderr sd;
          ExitCode := -1;
          StreamErrors := (StreamErrors sd ++
            ["error type=(" +:+ errors.TypeName (errors.Cause err)
             +:+ "): Failed to create NewSession: " +:+ errors.Error err +:+ LF])%list |},
       took, [EvNewSession])
  | (took, None) =>
      let o := SessionRun client i (cmd c) in
      let '(code, errs) :=
        match run_err o with
        | None => (ExitCode sd, StreamErrors sd)
        | Some (ExitError w) =>
            (status w,
             (StreamErrors sd ++
               ["Command completed unsuccessfully: [" +:+ errors.TypeName (ExitError w)
                +:+ "]: " +:+ errors.Waitmsg_String w])%list)
        | Some ExitMissingError =>
            (-1,
             (StreamErrors sd ++
               ["Exit code missing: " +:+ errors.Error ExitMissingError])%list)
        | Some err =>
            (-1,
             (StreamErrors sd ++
               ["Failed session Run: [" +:+ errors.TypeName (errors.Cause err)
                +:+ "]: " +:+ errors.Error err])%list)
        end in
      ({| Name := Name sd;
          Stdout := TrimSpace (run_stdout o);
          Stderr := TrimSpace (run_stderr o);
          ExitCode := code; StreamErrors := errs |},
       took + run_took o, [EvNewSession; EvSessionRun (cmd c)])
  end.

(** The loop over [cs], the first of which is the [i]-th command. *)
Fixpoint executeFrom (client : Client) (i : nat) (cs : list command)
  : list Stream * Z * list Event :=
  match cs with
  | [] => ([], 0, [])
  | c :: cs' =>
      let '(sd, t, evs) := runCommand client i c in
      let '(out, t', evs') := executeFrom client (S i) cs' in
      (sd :: out, t + t', (evs ++ evs')%list)
  end.

Definition executeCommands (client : Client) (cs : list command)
  : list Stream * Z * list Event :=
  executeFrom client 0%nat cs.

(** [Run]: the machine it returns and the calls it made. *)
Definition Run (st : State) (w : World) (m : Machine) : Machine * list Event :=
  if String.eqb (HostName (Info m)) "127.0.0.1"
     || String.eqb (HostName (Info m)) "localhost" then
    (failed m 0 ("[" +:+ HostName (Info m)
                 +:+ "] is not supported. Consider creating a feature proposal"),
     [])
  else
    match setSSHPort m with
    | (_, Some err) =>
        (failed m 0 (errors.Error (errors.Wrap err "failed port validation")), [])
    | (m, None) =>
        let evs0 := if hostKeyCheck st then [EvOpenKnownHosts] else [] in
        let checked :=
          if hostKeyCheck st then
            match checkHostKey w (HostName (Info m)) (Port (Info m)) with
            | inr err => inr err
            | inl hostKey => inl (FixedHostKey hostKey)
            end
          else inl InsecureIgnoreHostKey in
        match checked with
        | inr err =>
            (failed m 0 (errors.Error (errors.Wrap err "failed host key check")),
             evs0)
        | inl hostChecking =>
            let conf := {| User := Username (Info m);
                           Auth := [auth st];
                           HostKeyCheck := hostChecking;
                           Timeout := wrap64 (connTimeout st * Second) |} in
            match Connect w m conf (retry st) (retryWait st) with
            | (inr err, t, evs) =>
                (failed m t
                   (errors.Error (errors.Wrap err "failed client connection")),
                 (evs0 ++ evs)%list)
            | (inl client, t, evs) =>
                let '(out, t', evs') := executeCommands client (commands st) in
                ({| Connection := true; RunLength := t + t';
                    ConnectionErrors := ConnectionErrors m;
                    StreamData := out; Info := Info m |},
                 (evs0 ++ evs ++ evs')%list)
            end
        end
    end.

End Run.

(** ** main: one goroutine per host, one shared slice

    The state of the fan-out of [main] after [wg.Add(len(inventory))]:
    the goroutines (one per inventory entry, each with the world its
    [Run] will meet), the mutex, the shared slice [boomerang.MachineData]
    and the WaitGroup counter.  A goroutine advances by one statement at
    a time, and the scheduler chooses who moves; [append] is a read of
    the slice followed by a write. *)

Inductive Task :=
| Spawned (w : World) (s : SSHInfo)        (* before [m.Run(rc)] has returned *)
| Returned (m : Machine)                   (* before [mut.Lock()] *)
| Locked (m : Machine)                     (* holds the lock, before [append] *)
| Loaded (m : Machine) (old : list Machine) (* [append] has read the slice *)
| Stored                                   (* slice assigned, before [mut.Unlock()] *)
| Unlocked                                 (* before [wg.Done()] *)
| Finished.

Record Sys := mkSys {
  tasks : list Task;
  mut : bool;                              (* the mutex is held *)
  MachineData : list Machine;
  wg : Z;
  joined : bool                            (* [wg.Wait()] has returned *)
}.

(** Who the scheduler lets move: goroutine [i], or [main]. *)
Inductive Choice := Go (i : nat) | Main.

Section Main.
Context `{GoLib}.
Variable st : State.

Definition hostResult (w : World) (s : SSHInfo) : Machine :=
  fst (Run st w (NewMachine s)).

Definition setTask (s : Sys) (i : nat) (t : Task) : Sys :=
  {| tasks := <[i := t]> (tasks s); mut := mut s;
     MachineData := MachineData s; wg := wg s; joined := joined s |}.

(** The next statement of goroutine [i], if it can run. *)
Definition stepTask (i : nat) (s : Sys) : option Sys :=
  match tasks s !! i with
  | Some (Spawned w h) => Some (setTask s i (Returned (hostResult w h)))
  | Some (Returned m) =>
      if mut s then None
      else Some {| tasks := <[i := Locked m]> (tasks s); mut := true;
                   MachineData := MachineData s; wg := wg s; joined := joined s |}
  | Some (Locked m) => Some (setTask s i (Loaded m (MachineData s)))
  | Some (Loaded m old) =>
      Some {| tasks := <[i := Stored]> (tasks s); mut := mut s;
              MachineData := old ++ [m]; wg := wg s; joined := joined s |}
  | Some Stored =>
      Some {| tasks := <[i := Unlocked]> (tasks s); mut := false;
              MachineData := MachineData s; wg := wg s; joined := joined s |}
  | Some Unlocked =>
      Some {| tasks := <[i := Finished]> (tasks s); mut := mut s;
              MachineData := MachineData s; wg := wg s - 1; joined := joined s |}
  | Some Finished | None => None
  end.

(** [wg.Wait()] returns once the counter is zero. *)
Definition stepMain (s : Sys) : option Sys :=
  if wg s =? 0 then
    Some {| tasks := tasks s; mut := mut s; MachineData := MachineData s;
            wg := wg s; joined := true |}
  else None.

Definition step (c : Choice) (s : Sys) : option Sys :=
  match c with
  | Go i => stepTask i s
  | Main => stepMain s
  end.

(** A run under a schedule; a choice that cannot move is passed over. *)
Fixpoint exec (sched : list Choice) (s : Sys) : Sys :=
  match sched with
  | [] => s
  | c :: sched' =>
      match step c s with
      | Some s' => exec sched' s'
      | None => exec sched' s
      end
  end.

Definition initial (worlds : nat -> World) (inventory : list SSHInfo) : Sys :=
  {| tasks := imap (fun i s => Spawned (worlds i) s) inventory;
     mut := false;
     MachineData := [];
     wg := Z.of_nat (length inventory);
     joined := false |}.

(** The host results the run owes: one per inventory entry. *)
Definition results (worlds : nat -> World) (inventory : list SSHInfo)
  : list Machine :=
  imap (fun i s => hostResult (worlds i) s) inventory.

(** The schedule that lets the goroutines run one after the other. *)
Definition sequential (n : nat) : list Choice :=
  (seq 0 n ≫= fun i => replicate 6 (Go i)) ++ [Main].

End Main.

(** ** A concrete library and concrete worlds

    Used to run the definitions above on explicit inputs. *)

Module Sample.

Definition DQ : string := String (ascii_of_nat 34) EmptyString.

Definition isSpace (a : ascii) : bool :=
  let n := nat_of_ascii a in
  Nat.eqb n 32 || (Nat.leb 9 n && Nat.leb n 13).

Fixpoint trimLeft (s : string) : string :=
  match s with
  | String a s' => if isSpace a then trimLeft s' else s
  | EmptyString => EmptyString
  end.

Fixpoint trimRight (s : string) : string :=
  match s with
  | String a s' =>
      match trimRight s' with
      | EmptyString => if isSpace a then EmptyString else String a EmptyString
      | r => String a r
      end
  | EmptyString => EmptyString
  end.

(** Accepts [options keytype key] and answers the key. *)
Definition parseLine (line : string) : PublicKey + error :=
  match strings.Split line " " with
  | [_; typ; key] =>
      if String.prefix "ssh-" typ then inl key
      else inr (LibError "*errors.errorString" "ssh: no key found")
  | _ => inr (LibError "*errors.errorString" "ssh: no key found")
  end.

Definition lib : GoLib := {|
  Quote s := DQ +:+ s +:+ DQ;
  TrimSpace s := trimRight (trimLeft s);
  DurationString d := strconv.Itoa (d / Second) +:+ "s";
  ParseAuthorizedKey := parseLine
|}.

Definition refused : error :=
  LibError "*net.OpError" "dial tcp: connection refused".

(** A server that answers every command with exit status 0. *)
Definition obedient : Client :=
  {| NewSession := fun _ => (0, None);
     SessionRun := fun _ c =>
       {| run_took := Second; run_err := None;
          run_stdout := c +:+ LF; run_stderr := "" |} |}.

(** A server whose [i]-th session ends as [outcome i] says. *)
Definition scripted (opens : nat -> option error)
    (outcome : nat -> option error) (out : string) : Client :=
  {| NewSession := fun i => (0, opens i);
     SessionRun := fun i _ =>
       {| run_took := 0; run_err := outcome i;
          run_stdout := out; run_stderr := "" |} |}.

Definition known : list string :=
  [ "# comment line";
    "myexample.com ssh-rsa AAAAmy";
    "example.com ssh-rsa AAAAex";
    "[example.com]:2222 ssh-ed25519 AAAAalt" ].

(** Every dial is refused at once. *)
Definition unreachable : World :=
  {| known_hosts := inl known;
     dial := fun _ _ _ => {| dial_took := 0; dial_result := inr refused |};
     select_tie := false |}.

(** Every dial succeeds after one second. *)
Definition reachable : World :=
  {| known_hosts := inl known;
     dial := fun _ _ _ => {| dial_took := Second; dial_result := inl obedient |};
     select_tie := false |}.

(** Every dial takes [took] and then fails. *)
Definition slow (took : Z) : World :=
  {| known_hosts := inl known;
     dial := fun _ _ _ => {| dial_took := took; dial_result := inr refused |};
     select_tie := false |}.

Definition host (h p : string) : SSHInfo :=
  {| HostName := h; Username := "ops"; Port := p; Extras := None |}.

Definition policy (check : bool) (timeout r wait : Z) : State :=
  {| auth := Password "secret"; connTimeout := timeout; retry := r;
     retryWait := wait; hostKeyCheck := check;
     commands := [ {| name := "up"; cmd := "uptime"; sudo := false |};
                   {| name := "id"; cmd := "id -u"; sudo := false |} ] |}.

End Sample.

(** ** What a state of the fan-out still owes *)

Local Open Scope list_scope.

Section Accounting.
Context `{GoLib}.
Variable st : State.

(** The host result a goroutine has yet to put into the slice. *)
Definition pending (t : Task) : list Machine :=
  match t with
  | Spawned w s => [hostResult st w s]
  | Returned m | Locked m | Loaded m _ => [m]
  | Stored | Unlocked | Finished => []
  end.

(** One token for a goroutine that has not yet called [wg.Done()]. *)
Definition alive (t : Task) : list unit :=
  match t with
  | Finished => []
  | _ => [tt]
  end.

(** The goroutine is between [mut.Lock()] and [mut.Unlock()]. *)
Definition holds (t : Task) : bool :=
  match t with
  | Locked _ | Loaded _ _ | Stored => true
  | _ => false
  end.

(** The invariant of the fan-out, for the results [R] it owes. *)
Record Inv (R : list Machine) (s : Sys) : Prop := mkInv {
  inv_wg : wg s = Z.of_nat (length (concat (alive <$> tasks s)));
  inv_free : mut s = false ->
             forall j t, tasks s !! j = Some t -> holds t = false;
  inv_excl : forall j k t t',
             tasks s !! j = Some t -> tasks s !! k = Some t' ->
             holds t = true -> holds t' = true -> j = k;
  inv_loaded : forall j m old,
             tasks s !! j = Some (Loaded m old) -> old = MachineData s;
  inv_joined : joined s = true -> wg s = 0;
  inv_perm : MachineData s ++ concat (pending <$> tasks s) ≡ₚ R
}.

End Accounting.

(** ** Reading aids for the properties *)

Section Paths.
Context `{GoLib}.

Definition loopback (m : Machine) : bool :=
  String.eqb (HostName (Info m)) "127.0.0.1"
  || String.eqb (HostName (Info m)) "localhost".

(** The ways through [Run], in the order the code tries them. *)
Inductive RunPath (st : State) (w : World) (m : Machine)
  : Machine * list Event -> Prop :=
| path_loopback :
    loopback m = true ->
    RunPath st w m
      (failed m 0 ("[" +:+ HostName (Info m)
                   +:+ "] is not supported. Consider creating a feature proposal"),
       [])
| path_port err :
    loopback m = false -> setSSHPort m = (m, Some err) ->
    RunPath st w m
      (failed m 0 (errors.Error (errors.Wrap err "failed port validation")), [])
| path_hostkey m' err :
    loopback m = false -> setSSHPort m = (m', None) ->
    hostKeyCheck st = true ->
    checkHostKey w (HostName (Info m')) (Port (Info m')) = inr err ->
    RunPath st w m
      (failed m' 0 (errors.Error (errors.Wrap err "failed host key check")),
       [EvOpenKnownHosts])
| path_connect m' cb err t evs :
    loopback m = false -> setSSHPort m = (m', None) ->
    (if hostKeyCheck st
     then exists key, checkHostKey w (HostName (Info m')) (Port (Info m')) = inl key
                      /\ cb = FixedHostKey key
     else cb = InsecureIgnoreHostKey) ->
    Connect w m' {| User := Username (Info m'); Auth := [auth st];
                    HostKeyCheck := cb;
                    Timeout := wrap64 (connTimeout st * Second) |}
            (retry st) (retryWait st) = (inr err, t, evs) ->
    RunPath st w m
      (failed m' t (errors.Error (errors.Wrap err "failed client connection")),
       (if hostKeyCheck st then [EvOpenKnownHosts] else []) ++ evs)
| path_executed m' cb client t evs :
    loopback m = false -> setSSHPort m = (m', None) ->
    (if hostKeyCheck st
     then exists key, checkHostKey w (HostName (Info m')) (Port (Info m')) = inl key
                      /\ cb = FixedHostKey key
     else cb = InsecureIgnoreHostKey) ->
    Connect w m' {| User := Username (Info m'); Auth := [auth st];
                    HostKeyCheck := cb;
                    Timeout := wrap64 (connTimeout st * Second) |}
            (retry st) (retryWait st) = (inl client, t, evs) ->
    RunPath st w m
      ({| Connection := true;
          RunLength := t + (executeCommands client (commands st)).1.2;
          ConnectionErrors := ConnectionErrors m';
          StreamData := (executeCommands client (commands st)).1.1;
          Info := Info m' |},
       (if hostKeyCheck st then [EvOpenKnownHosts] else []) ++ evs
         ++ (executeCommands client (commands st)).2).

(** What became of the [i]-th command, as the type switch of
    [executeCommands] tells the cases apart. *)
Inductive Outcome :=
| Completed (code : Z)        (* [Run] returned nil or an [*ssh.ExitError] *)
| ExitMissing                 (* [*ssh.ExitMissingError] *)
| NoSession (err : error)     (* [NewSession] failed *)
| RunFailed (err : error).    (* any other error of [Run] *)

Definition outcome (client : Client) (i : nat) (c : command) : Outcome :=
  match NewSession client i with
  | (_, Some err) => NoSession err
  | (_, None) =>
      match run_err (SessionRun client i (cmd c)) with
      | None => Completed 0
      | Some (ExitError w) => Completed (status w)
      | Some ExitMissingError => ExitMissing
      | Some err => RunFailed err
      end
  end.

(** The three outcomes the specification names, read off a recorded
    [Stream]: the exit code the remote process reported; or -1 with an
    error that says the exit code is missing; or -1 with an error
    recorded and both output streams empty. *)
Definition claimed_outcome (client : Client) (i : nat) (c : command)
    (sd : Stream) : Prop :=
  (exists code, outcome client i c = Completed code /\ ExitCode sd = code)
  \/ (ExitCode sd = -1
      /\ exists text, StreamErrors sd = ["Exit code missing: " +:+ text])
  \/ (ExitCode sd = -1 /\ StreamErrors sd <> []
      /\ Stdout sd = "" /\ Stderr sd = "").

(** The test of the scanner loop of [checkHostKey] on one line:
    exactly three fields, the first of which contains [hp]. *)
Definition knownLine (hp line : string) : bool :=
  Nat.eqb (length (strings.Split line " ")) 3
  && strings.Contains (nth 0 (strings.Split line " ") "") hp.

(** The port string parses as an integer in [1, 65535]. *)
Definition validPort (p : string) : bool :=
  match strconv.Atoi p with
  | inl i => (1 <=? i) && (i <=? 65535)
  | inr _ => false
  end.

(** [P] holds of the [n] integers from [i] on. *)
Fixpoint allFrom (n : nat) (i : Z) (P : Z -> bool) : bool :=
  match n with
  | O => true
  | S n' => P i && allFrom n' (i + 1) P
  end.

(** The calls of a dial loop whose first [n] attempts fail: [n + 1]
    dials with a sleep of [d] between one and the next. *)
Fixpoint retryTrace (addr : string) (conf : ClientConfig) (d : Z) (n : nat)
  : list Event :=
  match n with
  | O => [EvDial addr conf]
  | S n' => EvDial addr conf :: EvSleep d :: retryTrace addr conf d n'
  end.

(** The error was made by a library, not by [errors.New], [Errorf] or
    [Wrap]; the errors of [ssh.Dial] are of this kind. *)
Definition fromLibrary (e : error) : bool :=
  match e with
  | fundamental _ | withStack _ _ => false
  | _ => true
  end.

Definition isNewSession (e : Event) : bool :=
  match e with EvNewSession => true | _ => false end.

End Paths.

(** * Further code of the repository *)

(** ** Reading aids for the further properties *)

Definition isSleep (e : Event) : bool :=
  match e with EvSleep _ => true | _ => false end.

(** The event is a call on an open connection. *)
Definition isSession (e : Event) : bool :=
  match e with EvNewSession | EvSessionRun _ => true | _ => false end.

(** How often the byte [c] occurs in [s]. *)
Fixpoint countByte (c : ascii) (s : string) : nat :=
  match s with
  | EmptyString => O
  | String a s' => (if Ascii.eqb a c then 1 else 0) + countByte c s'
  end.

Definition dials (evs : list Event) : nat :=
  length (filter (fun e => isDial e = true) evs).

Definition sleeps (evs : list Event) : nat :=
  length (filter (fun e => isSleep e = true) evs).

(** ** setAuth

    The outside of [setAuth]: the file system for the private key, the
    environment and the agent's socket for the agent. *)

(** [authOpt], the argument of [setAuth]. *)
Record authOpt := mkAuthOpt {
  opt_auth : string;
  opt_key : string;
  opt_pass : string;
  opt_agent : string
}.

Record AuthWorld := mkAuthWorld {
  (** [ioutil.ReadFile] *)
  readFile : string -> string + error;
  (** [ssh.ParsePrivateKey]: the signer of a key file's content *)
  parsePrivateKey : string -> string + error;
  (** [os.Getenv] *)
  getenv : string -> string;
  (** [net.Dial("unix", path)]: [None] when the socket answers *)
  dialUnix : string -> option error;
  (** [agent.NewClient(conn).Signers()] on the socket at the path *)
  agentSigners : string -> list string + error
}.

Inductive AuthEvent :=
| AuReadFile (path : string)
| AuDialAgent (path : string)
| AuSigners (path : string).

Definition TAB : string := String (ascii_of_nat 9) EmptyString.

Section Auth.
Context `{GoLib}.

Definition getPrivKey (aw : AuthWorld) (pkFile : string)
  : (string + error) * list AuthEvent :=
  match readFile aw pkFile with
  | inr err => (inr (errors.Wrap err "unable to read private key"),
                [AuReadFile pkFile])
  | inl b =>
      match parsePrivateKey aw b with
      | inr err =>
          (inr (errors.Wrap err "unable to parse private key to a Signer"),
           [AuReadFile pkFile])
      | inl s => (inl s, [AuReadFile pkFile])
      end
  end.

Definition sshAgent (aw : AuthWorld) (s : string)
  : (AuthMethod + error) * list AuthEvent :=
  let path := getenv aw s in
  match dialUnix aw path with
  | Some err =>
      (inr (errors.Wrap err ("could not get " +:+ s +:+ " from env")),
       [AuDialAgent path])
  | None =>
      match agentSigners aw path with
      | inr err => (inr (errors.Wrap err "signer failed"),
                    [AuDialAgent path; AuSigners path])
      | inl ss =>
          if Nat.eqb (length ss) 0 then
            (inr (fundamental
                    ("unable to authenticate agent using [" +:+ s
                     +:+ "]. Either key not loaded or has passphrase, confirm with ssh-add -l and load with ssh-add")),
             [AuDialAgent path; AuSigners path])
          else (inl (PublicKeysCallback path),
                [AuDialAgent path; AuSigners path])
      end
  end.

Definition setAuth (aw : AuthWorld) (a : authOpt)
  : (AuthMethod + error) * list AuthEvent :=
  if String.eqb (opt_auth a) "key" then
    let pk := opt_key a in
    if String.eqb pk "" then
      (inr (errors.New "must include privKeyLocation when auth=key"), [])
    else
      match getPrivKey aw pk with
      | (inr err, evs) =>
          (inr (errors.Wrap err
                  ("could not convert private key to a valid signer: " +:+ pk)),
           evs)
      | (inl signer, evs) => (inl (PublicKeys signer), evs)
      end
  else if String.eqb (opt_auth a) "agent" then
    match sshAgent aw (opt_agent a) with
    | (inr err, evs) =>
        (inr (errors.Wrap err
                ("could not convert agent into a valid auth method: "
                 +:+ opt_agent a)),
         evs)
    | (inl auth, evs) => (inl auth, evs)
    end
  else if String.eqb (opt_auth a) "password" then
    let p := opt_pass a in
    if String.eqb p "" then
      (inr (errors.New "must include SSHpassword when auth=password"), [])
    else (inl (Password p), [])
  else
    (inr (fundamental ("unsupported auth method: " +:+ opt_auth a +:+ LF +:+ TAB
                       +:+ "must use key, agent or password")),
     []).

End Auth.

(** ** RetrieveInventory *)

(** The answer to an HTTP GET: the status code, the status line, the body. *)
Record HttpResponse := mkHttpResponse {
  StatusCode : Z;
  Status : string;
  Body : string
}.

(** What [os.Stat] says of a path. *)
Inductive StatResult := StatOk | StatNotExist | StatError (err : error).

Record InventoryWorld := mkInventoryWorld {
  (** [c.Get(url)] with the client's timeout of ten seconds *)
  httpGet : string -> HttpResponse + error;
  (** [os.Stat] *)
  stat : string -> StatResult;
  (** [os.Open] and the content read through the file *)
  openFile : string -> string + error;
  (** [json.NewDecoder(r).Decode(&inventory)] on the text read from [r] *)
  decodeInventory : string -> list SSHInfo + error
}.

Inductive InventoryEvent :=
| IvGet (url : string)
| IvStat (path : string)
| IvOpen (path : string).

Definition isGet (e : InventoryEvent) : bool :=
  match e with IvGet _ => true | _ => false end.

Section Inventory.
Context `{GoLib}.

(** The regular expression [^(http|https)://] matches [l]. *)
Definition matchesURL (l : string) : bool :=
  String.prefix "http://" l || String.prefix "https://" l.

Definition getInventoryFromURL (iw : InventoryWorld) (url : string)
  : (list SSHInfo + error) * list InventoryEvent :=
  match httpGet iw url with
  | inr err => (inr (errors.Wrap err "unable to fetch url"), [IvGet url])
  | inl resp =>
      if negb (StatusCode resp =? 200) then
        (inr (fundamental ("server returned a [" +:+ Status resp
                           +:+ "], expecting status code 200")),
         [IvGet url])
      else
        match decodeInventory iw (Body resp) with
        | inr err =>
            (inr (errors.Wrap err
                    ("could not decode inventory from [" +:+ url +:+ "]")),
             [IvGet url])
        | inl inventory => (inl inventory, [IvGet url])
        end
  end.

(** [fileExists]: anything but a not-exist error counts as existing. *)
Definition fileExists (iw : InventoryWorld) (f : string) : bool :=
  match stat iw f with
  | StatNotExist => false
  | _ => true
  end.

Definition getInventoryFromFile (iw : InventoryWorld) (file : string)
  : (list SSHInfo + error) * list InventoryEvent :=
  if negb (fileExists iw file) then
    (inr (fundamental ("stat on file failed or file does not exist: check "
                       +:+ file)),
     [IvStat file])
  else
    match openFile iw file with
    | inr err => (inr err, [IvStat file; IvOpen file])
    | inl text =>
        match decodeInventory iw text with
        | inr err =>
            (inr (errors.Wrap err
                    ("could not decode inventory from [" +:+ file +:+ "]")),
             [IvStat file; IvOpen file])
        | inl inventory => (inl inventory, [IvStat file; IvOpen file])
        end
    end.

Definition RetrieveInventory (iw : InventoryWorld) (l : string)
  : (list SSHInfo + error) * list InventoryEvent :=
  if matchesURL l then
    match getInventoryFromURL iw l with
    | (inr err, evs) =>
        (inr (errors.Wrap err "could not get inventory from url"), evs)
    | (inl ssh, evs) => (inl ssh, evs)
    end
  else
    match getInventoryFromFile iw l with
    | (inr err, evs) =>
        (inr (errors.Wrap err "could not get inventory from file"), evs)
    | (inl ssh, evs) => (inl ssh, evs)
    end.

End Inventory.

(** ** setup: parseCommands and State.importFromViper *)

Module setup.

(** A value of type [interface{}] in the unmarshalled configuration: a
    string, or anything else with the text [%v] prints for it. *)
Inductive Any :=
| AString (s : string)
| AOther (shown : string).

Definition show (a : Any) : string :=
  match a with AString s => s | AOther t => t end.

(** The answers of the configuration registry (viper) to the queries
    of [importFromViper]; [GetCommands] is [viper.Get("commands")]
    asserted to [[]command]. *)
Record Viper := mkViper {
  IsSet : string -> bool;
  GetString : string -> string;
  GetInt64 : string -> Z;
  GetBool : string -> bool;
  GetCommands : option (list command)
}.

(** The fields of [State] that [importFromViper] assigns: those [Run]
    reads ([engine]) and the others. *)
Record Settings := mkSettings {
  configFile : string;
  inventory : string;
  machineType : string;
  prefixJSON : string;
  keepLatestFile : bool;
  indentJSON : bool;
  engine : State
}.

Section setup.
Context `{GoLib}.

(** The two loops of [parseCommands] over one map [m], whose entries
    come in the order the runtime iterates them: the commands appended to
    [out] and the warnings logged. *)
Fixpoint parseEntries (m : list (Any * Any)) : list command * list string :=
  match m with
  | [] => ([], [])
  | (k, v) :: rest =>
      let '(out, logs) := parseEntries rest in
      match k with
      | AString key =>
          match v with
          | AString value =>
              ({| name := key; cmd := value;
                  sudo := strings.Contains value "sudo" |} :: out, logs)
          | _ =>
              (out,
               ("Warning: [" +:+ show v
                +:+ "] is not a string. Command will be ignored, check config file"
                +:+ LF) :: logs)
          end
      | _ =>
          (out,
           ("Warning: [" +:+ show k
            +:+ "] is not a string. Command name will be ignored, check config file"
            +:+ LF) :: logs)
      end
  end.

Fixpoint parseMaps (i : list (list (Any * Any))) : list command * list string :=
  match i with
  | [] => ([], [])
  | m :: rest =>
      let '(out, logs) := parseEntries m in
      let '(out', logs') := parseMaps rest in
      (out ++ out', logs ++ logs')
  end.

(** [parseCommands]: [inConfig] is [viper.InConfig("commands")],
    [unmarshalled] the result of [viper.UnmarshalKey("commands", &i)].
    On success the list is what [viper.Set("commands", out)] stores. *)
Definition parseCommands (inConfig : bool)
    (unmarshalled : list (list (Any * Any)) + error)
  : (list command + error) * list string :=
  if negb inConfig then
    (inr (errors.New "could not find commands key in config file"), [])
  else
    match unmarshalled with
    | inr err =>
        (inr (errors.Wrap err "unable to unmarshal commands into struct"), [])
    | inl i =>
        if Nat.eqb (length i) 0 then
          (inr (errors.New "no commands specified in config file"), [])
        else
          let '(out, logs) := parseMaps i in
          if Nat.eqb (length out) 0 then
            (inr (errors.New
                    "could not generate list of commands from config file"),
             logs)
          else (inl out, logs)
    end.

Definition importFromViper (v : Viper) (aw : AuthWorld)
  : (Settings + error) * list AuthEvent :=
  if negb (IsSet v "inventory") then
    (inr (errors.New "missing inventory option"), [])
  else if negb (IsSet v "auth") then
    (inr (errors.New
            "missing valid auth option. Available options: key, agent or password"),
     [])
  else
    let opts := {| opt_auth := GetString v "auth";
                   opt_key := GetString v "privKeyLocation";
                   opt_pass := GetString v "SSHpassword";
                   opt_agent := GetString v "agentSSHAuth" |} in
    match setAuth aw opts with
    | (inr err, evs) => (inr err, evs)
    | (inl a, evs) =>
        if (GetInt64 v "connTimeout" <? 0) || (GetInt64 v "retry" <? 0)
           || (GetInt64 v "retryWait" <? 0) then
          (inr (errors.New
                  "connTimeout, retryWait or retry must be a positive value"),
           evs)
        else
          match GetCommands v with
          | None => (inr (errors.New "could not assert command list"), evs)
          | Some cs =>
              (inl {| configFile := GetString v "config";
                      inventory := GetString v "inventory";
                      machineType := GetString v "machineType";
                      prefixJSON := GetString v "prefixJSON";
                      keepLatestFile := GetBool v "keepLatestFile";
                      indentJSON := GetBool v "indentJSON";
                      engine := {| auth := a;
                                   connTimeout := GetInt64 v "connTimeout";
                                   retry := GetInt64 v "retry";
                                   retryWait := GetInt64 v "retryWait";
                                   hostKeyCheck := GetBool v "hostKeyCheck";
                                   commands := cs |} |},
               evs)
          end
    end.

End setup.
End setup.

(** ** Cleaning up old reports (package output) *)

(** [path/filepath] on Unix, where the only separator is the slash. *)
Module filepath.

Definition isSeparator (a : ascii) : bool := Ascii.eqb a "/".

(** The loop of [Split], walking down from the end of the path: [r] is
    the part not yet looked at, last byte first; [acc] is the part
    behind it. *)
Fixpoint scanSplit (r acc : list ascii) : list ascii * list ascii :=
  match r with
  | [] => ([], acc)
  | a :: r' => if isSeparator a then (rev r, acc) else scanSplit r' (a :: acc)
  end.

(** [filepath.Split]: the directory with its final slash, and the file. *)
Definition Split (path : string) : string * string :=
  let '(dir, file) := scanSplit (rev (list_ascii_of_string path)) [] in
  (string_of_list_ascii dir, string_of_list_ascii file).

(** The loop of [Ext], in the same way. *)
Fixpoint scanExt (r acc : list ascii) : list ascii :=
  match r with
  | [] => []
  | a :: r' =>
      if isSeparator a then []
      else if Ascii.eqb a "." then a :: acc
      else scanExt r' (a :: acc)
  end.

(** [filepath.Ext]: the suffix of the last element from its last dot on. *)
Definition Ext (path : string) : string :=
  string_of_list_ascii (scanExt (rev (list_ascii_of_string path)) []).

End filepath.

(** [os.FileInfo], as far as the code asks: [Name()] and
    [Mode().IsRegular()]. *)
Record FileInfo := mkFileInfo {
  fi_name : string;
  fi_regular : bool
}.

Record DirWorld := mkDirWorld {
  (** [os.Open(dir)]: [None] when the directory opens *)
  openDir : string -> option error;
  (** [d.Readdir(0)]: the entries it returns, and its error *)
  readdir : string -> list FileInfo * option error;
  (** [os.Remove(filepath.Join(dir, name))] *)
  removeFile : string -> string -> option error
}.

Section Cleanup.
Context `{GoLib}.

(** The first loop of [CleanUpExcept]: the names to keep. *)
Definition keepNames (files : list string) : gmap string bool :=
  foldl (fun lookup f => <[(filepath.Split f).2 := true]> lookup) ∅ files.

(** The second loop, over the entries of the directory: the errors
    appended and the names handed to [os.Remove]. *)
Fixpoint removeEntries (dw : DirWorld) (dirName : string)
    (lookup : gmap string bool) (fs : list FileInfo)
  : list error * list string :=
  match fs with
  | [] => ([], [])
  | f :: rest =>
      let '(errs, removed) := removeEntries dw dirName lookup rest in
      match lookup !! fi_name f with
      | Some _ => (errs, removed)
      | None =>
          if fi_regular f && String.eqb (filepath.Ext (fi_name f)) ".json" then
            match removeFile dw dirName (fi_name f) with
            | Some err =>
                (errors.Wrap err "removing JSON file" :: errs,
                 fi_name f :: removed)
            | None => (errs, fi_name f :: removed)
            end
          else (errs, removed)
      end
  end.

(** [CleanUpExcept]: the errors it returns and the names it handed to
    [os.Remove], in order. *)
Definition CleanUpExcept (dw : DirWorld) (dirName : string)
    (files : list string) : list error * list string :=
  let lookup := keepNames files in
  match openDir dw dirName with
  | Some err =>
      ([errors.Wrap err ("error opening directory: [" +:+ dirName +:+ "]")], [])
  | None => removeEntries dw dirName lookup (readdir dw dirName).1
  end.

(** [cleanupJSON], the older sibling without exceptions. *)
Fixpoint removeJSON (dw : DirWorld) (dir : string) (files : list FileInfo)
  : list error * list string :=
  match files with
  | [] => ([], [])
  | j :: rest =>
      let '(errs, removed) := removeJSON dw dir rest in
      if fi_regular j && String.eqb (filepath.Ext (fi_name j)) ".json" then
        match removeFile dw dir (fi_name j) with
        | Some err =>
            (errors.Wrap err "Error removing old JSON file" :: errs,
             fi_name j :: removed)
        | None => (errs, fi_name j :: removed)
        end
      else (errs, removed)
  end.

Definition cleanupJSON (dw : DirWorld) (dir : string)
  : list error * list string :=
  match openDir dw dir with
  | Some err => ([errors.Wrap err ("Error opening [" +:+ dir +:+ "]")], [])
  | None =>
      match readdir dw dir with
      | (_, Some err) =>
          ([errors.Wrap err ("Error reading files from [" +:+ dir +:+ "]")], [])
      | (files, None) => removeJSON dw dir files
      end
  end.

End Cleanup.

(** ** The elapsed time main reports *)

(** [time.Millisecond], in nanoseconds. *)
Definition Millisecond : Z := 1000000.

(** [elapsed - (elapsed % time.Millisecond)], as [main] computes the
    total time and [Finished] prints it; [%] truncates towards zero. *)
Definition totalTime (elapsed : Z) : Z :=
  wrap64 (elapsed - wrap64 (Z.rem elapsed Millisecond)).

(** ** Concrete inputs for the further code *)

Module Fixtures.

Definition sampleViper (timeout : Z) : setup.Viper :=
  {| setup.IsSet := fun _ => true;
     setup.GetString := fun k =>
       if String.eqb k "auth" then "password"
       else if String.eqb k "SSHpassword" then "secret"
       else if String.eqb k "inventory" then "hosts.json" else "";
     setup.GetInt64 := fun k => if String.eqb k "connTimeout" then timeout else 0;
     setup.GetBool := fun _ => true;
     setup.GetCommands := Some (commands (Sample.policy true 0 0 0)) |}.

Definition noAuthWorld : AuthWorld :=
  {| readFile := fun _ => inr (LibError "*fs.PathError" "no such file");
     parsePrivateKey := fun _ => inr (LibError "*errors.errorString" "ssh: no key found");
     getenv := fun _ => "";
     dialUnix := fun _ => Some (LibError "*net.OpError" "connect: no such file");
     agentSigners := fun _ => inl [] |}.

Definition sampleDir : DirWorld :=
  {| openDir := fun _ => None;
     readdir := fun _ =>
       ([ {| fi_name := "raw_20180101_000000.json"; fi_regular := true |};
          {| fi_name := "raw_20180102_000000.json"; fi_regular := true |};
          {| fi_name := "notes.txt"; fi_regular := true |};
          {| fi_name := "old.json"; fi_regular := false |} ], None);
     removeFile := fun _ n =>
       if String.eqb n "raw_20180101_000000.json"
       then Some (LibError "*fs.PathError" "permission denied") else None |}.

End Fixtures.

(** * Properties *)

(** The library functions on small inputs. *)

Example Split_three : strings.Split "a b c" " " = ["a"; "b"; "c"].
Proof. reflexivity. Qed.

Example Split_double_space : strings.Split "a  b" " " = ["a"; ""; "b"].
Proof. reflexivity. Qed.

Example Atoi_plus : strconv.Atoi "+0022" = inl 22.
Proof. reflexivity. Qed.

Example Itoa_22 : strconv.Itoa 22 = "22" /\ strconv.Itoa 0 = "0" /\ strconv.Itoa (-7) = "-7".
Proof. repeat split; reflexivity. Qed.

Section MainProofs.
Context `{GoLib}.
Variable st : State.

Lemma concat_fmap_insert {A} (f : Task -> list A) (ts : list Task) i t t' :
  ts !! i = Some t ->
  exists a b, concat (f <$> ts) = a ++ f t ++ b
              /\ concat (f <$> <[i := t']> ts) = a ++ f t' ++ b.
Proof.
  intros Hi.
  exists (concat (f <$> take i ts)), (concat (f <$> drop (S i) ts)).
  split.
  - rewrite <- (take_drop_middle ts i t Hi) at 1.
    by rewrite fmap_app, concat_app.
  - rewrite insert_take_drop by (by eapply lookup_lt_Some).
    by rewrite fmap_app, concat_app.
Qed.

Lemma pending_initial (worlds : nat -> World) (inventory : list SSHInfo) :
  concat (pending st <$> imap (fun i s => Spawned (worlds i) s) inventory)
  = results st worlds inventory.
Proof.
  unfold results. revert worlds.
  induction inventory as [|s inv IH]; intros worlds; [done|].
  rewrite !imap_cons. cbn [fmap list_fmap concat pending app].
  f_equal. apply (IH (worlds ∘ S)).
Qed.

Lemma alive_initial (worlds : nat -> World) (inventory : list SSHInfo) :
  length (concat (alive <$> imap (fun i s => Spawned (worlds i) s) inventory))
  = length inventory.
Proof.
  revert worlds.
  induction inventory as [|s inv IH]; intros worlds; [done|].
  rewrite imap_cons. cbn. f_equal. apply (IH (worlds ∘ S)).
Qed.

Lemma alive_none_pending_none (ts : list Task) :
  length (concat (alive <$> ts)) = 0%nat -> concat (pending st <$> ts) = [].
Proof.
  induction ts as [|t ts IH]; [done|].
  destruct t; cbn; try discriminate. exact IH.
Qed.

Lemma Inv_initial worlds inventory :
  Inv st (results st worlds inventory) (initial worlds inventory).
Proof.
  split; cbn.
  - by rewrite alive_initial.
  - intros _ j t Hj. apply list_lookup_imap_Some in Hj as (s & _ & ->). done.
  - intros j k t t' Hj _ Ht. apply list_lookup_imap_Some in Hj as (s & _ & ->).
    discriminate.
  - intros j m old Hj. apply list_lookup_imap_Some in Hj as (s & _ & ?).
    discriminate.
  - discriminate.
  - by rewrite pending_initial.
Qed.

(** A goroutine that holds the lock is the only one that does. *)
Lemma holder_unique R s i t j x :
  Inv st R s -> tasks s !! i = Some t -> holds t = true ->
  tasks s !! j = Some x -> holds x = true -> j = i.
Proof. intros HI Hi Ht Hj Hx. exact (inv_excl st R s HI j i x t Hj Hi Hx Ht). Qed.

Ltac split_lookup H :=
  apply list_lookup_insert_Some in H as [(? & ? & _) | (? & H)];
  [simplify_eq/=; try done|].

Ltac account f Hi t' :=
  let a := fresh "a" in let b := fresh "b" in
  let E1 := fresh "E" in let E2 := fresh "E" in
  destruct (concat_fmap_insert f _ _ _ t' Hi) as (a & b & E1 & E2);
  rewrite E2; rewrite ?E1 in *; clear E2.

(** Replacing a goroutine that holds no lock by one that holds none
    keeps the two facts about the mutex. *)
Lemma mutex_kept R s i t t' :
  Inv st R s -> tasks s !! i = Some t -> holds t' = holds t ->
  (mut s = false ->
   forall j x, <[i := t']> (tasks s) !! j = Some x -> holds x = false)
  /\ (forall j k x y,
       <[i := t']> (tasks s) !! j = Some x ->
       <[i := t']> (tasks s) !! k = Some y ->
       holds x = true -> holds y = true -> j = k).
Proof.
  intros HI Hi Hh.
  assert (Hback : forall j x, <[i := t']> (tasks s) !! j = Some x ->
            exists x', tasks s !! j = Some x' /\ holds x' = holds x).
  { intros j x Hj.
    apply list_lookup_insert_Some in Hj as [(? & ? & _) | (? & Hj)];
      simplify_eq; eauto. }
  split.
  - intros Hm j x Hj. destruct (Hback _ _ Hj) as (x' & Hx' & <-).
    eapply inv_free; eauto.
  - intros j k x y Hj Hk Hx Hy.
    destruct (Hback _ _ Hj) as (x' & Hx' & Ex).
    destruct (Hback _ _ Hk) as (y' & Hy' & Ey).
    eapply (inv_excl st R s HI); eauto; congruence.
Qed.

Lemma Inv_stepTask R i s s' :
  Inv st R s -> stepTask st i s = Some s' -> Inv st R s'.
Proof.
  intros HI Hstep. unfold stepTask in Hstep.
  destruct (tasks s !! i) as [t|] eqn:Hi; [|discriminate].
  pose proof (inv_wg st R s HI) as Hwg.
  pose proof (inv_perm st R s HI) as Hperm.
  destruct t as [w h|m|m|m old| | |]; try discriminate.
  - (* Run returns *)
    injection Hstep as <-.
    destruct (mutex_kept R s i _ (Returned (hostResult st w h)) HI Hi eq_refl)
      as [Hfree Hexcl].
    split; cbn; [|exact Hfree|exact Hexcl| | |].
    + account alive Hi (Returned (hostResult st w h)). exact Hwg.
    + intros j m old Hj. split_lookup Hj. eapply inv_loaded; eauto.
    + apply HI.
    + account (pending st) Hi (Returned (hostResult st w h)). exact Hperm.
  - (* mut.Lock() *)
    destruct (mut s) eqn:Hmut; [discriminate|]. injection Hstep as <-.
    assert (Hnone : forall j x, tasks s !! j = Some x -> holds x = true -> False).
    { intros j x Hj Hx. rewrite (inv_free st R s HI Hmut _ _ Hj) in Hx.
      discriminate. }
    split; cbn.
    + account alive Hi (Locked m). exact Hwg.
    + intros Hm. discriminate Hm.
    + intros j k t t' Hj Hk Ht Ht'.
      apply list_lookup_insert_Some in Hj as [(? & ? & _) | (? & Hj)];
      apply list_lookup_insert_Some in Hk as [(? & ? & _) | (? & Hk)];
        simplify_eq; try done; exfalso; eauto.
    + intros j m' old Hj. split_lookup Hj. eapply inv_loaded; eauto.
    + apply HI.
    + account (pending st) Hi (Locked m). exact Hperm.
  - (* append reads the slice *)
    injection Hstep as <-.
    destruct (mutex_kept R s i _ (Loaded m (MachineData s)) HI Hi eq_refl)
      as [Hfree Hexcl].
    split; cbn; [|exact Hfree|exact Hexcl| | |].
    + account alive Hi (Loaded m (MachineData s)). exact Hwg.
    + intros j m' old Hj. split_lookup Hj. eapply inv_loaded; eauto.
    + apply HI.
    + account (pending st) Hi (Loaded m (MachineData s)). exact Hperm.
  - (* append writes the slice *)
    injection Hstep as <-.
    pose proof (inv_loaded st R s HI _ _ _ Hi) as ->.
    destruct (mutex_kept R s i _ Stored HI Hi eq_refl) as [Hfree Hexcl].
    split; cbn; [|exact Hfree|exact Hexcl| | |].
    + account alive Hi Stored. exact Hwg.
    + intros j m' old Hj. split_lookup Hj.
      exfalso. cut (j = i); [done|]. eapply holder_unique; eauto.
    + apply HI.
    + account (pending st) Hi Stored. cbn in *.
      rewrite <- Hperm. rewrite <- !app_assoc. apply Permutation_app_head.
      cbn. apply Permutation_middle.
  - (* mut.Unlock() *)
    injection Hstep as <-. split; cbn.
    + account alive Hi Unlocked. exact Hwg.
    + intros _ j t Hj. split_lookup Hj.
      destruct (holds t) eqn:Ht; [|done].
      exfalso. cut (j = i); [done|]. eapply holder_unique; eauto.
    + intros j k t t' Hj Hk Ht Ht'.
      apply list_lookup_insert_Some in Hj as [(? & ? & _) | (? & Hj)];
      apply list_lookup_insert_Some in Hk as [(? & ? & _) | (? & Hk)];
        simplify_eq; try done.
      eapply inv_excl; eauto.
    + intros j m' old Hj. split_lookup Hj. eapply inv_loaded; eauto.
    + apply HI.
    + account (pending st) Hi Unlocked. exact Hperm.
  - (* wg.Done() *)
    injection Hstep as <-.
    destruct (mutex_kept R s i _ Finished HI Hi eq_refl) as [Hfree Hexcl].
    split; cbn; [|exact Hfree|exact Hexcl| | |].
    + account alive Hi Finished. cbn in *.
      rewrite Hwg, !length_app. cbn. lia.
    + intros j m' old Hj. split_lookup Hj. eapply inv_loaded; eauto.
    + intros Hjoin. pose proof (inv_joined st R s HI Hjoin) as Hz.
      destruct (concat_fmap_insert alive _ _ _ Finished Hi) as (a & b & E & _).
      rewrite Hz, E, !length_app in Hwg. cbn in Hwg. lia.
    + account (pending st) Hi Finished. exact Hperm.
Qed.

Lemma Inv_step R c s s' :
  Inv st R s -> step st c s = Some s' -> Inv st R s'.
Proof.
  destruct c as [i|]; cbn; [apply Inv_stepTask|].
  unfold stepMain. intros HI.
  destruct (wg s =? 0) eqn:Hz; [|discriminate]. intros [= <-].
  destruct HI. split; cbn; try done. intros _. lia.
Qed.

Lemma Inv_exec R sched s : Inv st R s -> Inv st R (exec st sched s).
Proof.
  revert s. induction sched as [|c sched IH]; intros s HI; [done|].
  cbn. destruct (step st c s) as [s'|] eqn:Hc; [|by apply IH].
  apply IH. by eapply Inv_step.
Qed.

Lemma exec_app a b s : exec st (a ++ b) s = exec st b (exec st a s).
Proof.
  revert s. induction a as [|c a IH]; intros s; [done|].
  cbn. by destruct (step st c s); rewrite IH.
Qed.

(** Six moves take a goroutine from its start to its end when the
    mutex is free. *)
Lemma run_task s i w h :
  tasks s !! i = Some (Spawned w h) -> mut s = false ->
  exec st (replicate 6 (Go i)) s
  = {| tasks := <[i := Finished]> (tasks s); mut := false;
       MachineData := MachineData s ++ [hostResult st w h];
       wg := wg s - 1; joined := joined s |}.
Proof.
  intros Hi Hm. pose proof (lookup_lt_Some _ _ _ Hi) as Hlt.
  cbn [replicate exec step].
  unfold stepTask at 1. rewrite Hi.
  unfold stepTask at 1. cbn [setTask tasks mut].
  rewrite list_lookup_insert_eq by done. rewrite Hm.
  unfold stepTask at 1. cbn [tasks mut MachineData wg joined].
  rewrite list_lookup_insert_eq by (by rewrite length_insert).
  unfold stepTask at 1. cbn [setTask tasks mut MachineData wg joined].
  rewrite list_lookup_insert_eq by (by rewrite !length_insert).
  unfold stepTask at 1. cbn [tasks mut MachineData wg joined].
  rewrite list_lookup_insert_eq by (by rewrite !length_insert).
  unfold stepTask at 1. cbn [tasks mut MachineData wg joined].
  rewrite list_lookup_insert_eq by (by rewrite !length_insert).
  by rewrite !list_insert_insert_eq.
Qed.

Lemma run_tasks n : forall k s,
  (forall i, (k <= i < k + n)%nat ->
             exists w h, tasks s !! i = Some (Spawned w h)) ->
  mut s = false ->
  let s' := exec st (seq k n ≫= fun i => replicate 6 (Go i)) s in
  wg s' = wg s - Z.of_nat n /\ joined s' = joined s.
Proof.
  induction n as [|n IH]; intros k s Hall Hm; cbn [seq mbind list_bind].
  { cbn. split; [lia|done]. }
  destruct (Hall k ltac:(lia)) as (w & h & Hk).
  cbn zeta. rewrite exec_app, (run_task s k w h Hk Hm).
  match goal with |- context [exec st _ ?s1] =>
    destruct (IH (S k) s1) as [Hwg Hj] end.
  - intros i Hi. cbn [tasks].
    rewrite list_lookup_insert_ne by lia. apply Hall. lia.
  - done.
  - cbn [wg joined] in *. rewrite Hwg, Hj. split; [lia|done].
Qed.

(** The run completes: under the sequential schedule [wg.Wait()]
    returns, whatever the hosts do. *)
Lemma main_completes worlds inventory :
  joined (exec st (sequential (length inventory)) (initial worlds inventory))
  = true.
Proof.
  unfold sequential. rewrite exec_app.
  destruct (run_tasks (length inventory) 0 (initial worlds inventory))
    as [Hwg Hj]; [|done|].
  - intros i Hi. cbn [initial tasks].
    destruct (lookup_lt_is_Some_2 inventory i ltac:(lia)) as [h Hh].
    exists (worlds i), h. rewrite list_lookup_imap, Hh. done.
  - cbn [exec step]. unfold stepMain.
    cbn [initial wg] in Hwg. rewrite Hwg, Z.sub_diag. done.
Qed.

(** C1. For an inventory of N host descriptors, once [wg.Wait()] has
    returned the slice [MachineData] holds exactly N host results: it
    is a rearrangement of the results of [Run] on the N hosts, so no
    host is dropped and none appears twice.  This holds under every
    schedule of the goroutines and whatever the hosts' connections
    do. *)
Theorem main_one_result_per_host worlds inventory sched :
  joined (exec st sched (initial worlds inventory)) = true ->
  length (MachineData (exec st sched (initial worlds inventory)))
    = length inventory
  /\ MachineData (exec st sched (initial worlds inventory))
     ≡ₚ results st worlds inventory.
Proof.
  intros Hj.
  pose proof (Inv_exec _ sched _ (Inv_initial worlds inventory)) as HI.
  pose proof (inv_perm _ _ _ HI) as Hperm.
  pose proof (inv_joined _ _ _ HI Hj) as Hz.
  rewrite (inv_wg _ _ _ HI) in Hz.
  apply (f_equal Z.to_nat) in Hz. rewrite Nat2Z.id in Hz.
  rewrite (alive_none_pending_none _ Hz), app_nil_r in Hperm.
  split; [|exact Hperm].
  rewrite Hperm. unfold results. by rewrite length_imap.
Qed.

End MainProofs.


Section RunProofs.
Context `{GoLib}.

Lemma runCommand_Name client i c : Name (runCommand client i c).1.1 = name c.
Proof.
  unfold runCommand. destruct (NewSession client i) as [took [err|]]; [done|].
  destruct (run_err (SessionRun client i (cmd c))) as [[]|]; done.
Qed.

Lemma executeFrom_cons client i c cs :
  (executeFrom client i (c :: cs)).1.1
  = (runCommand client i c).1.1 :: (executeFrom client (S i) cs).1.1.
Proof.
  cbn [executeFrom].
  destruct (runCommand client i c) as [[sd t] evs].
  destruct (executeFrom client (S i) cs) as [[out t'] evs']. done.
Qed.

(** The loop appends one [Stream] per command, whatever happens. *)
Lemma executeFrom_length client cs : forall i,
  length (executeFrom client i cs).1.1 = length cs.
Proof.
  induction cs as [|c cs IH]; intros i; [done|].
  rewrite executeFrom_cons. cbn. by rewrite IH.
Qed.

(** The [k]-th [Stream] is the one of the [k]-th command, run in the
    session numbered after it. *)
Lemma executeFrom_lookup client cs : forall i k c,
  cs !! k = Some c ->
  (executeFrom client i cs).1.1 !! k = Some (runCommand client (i + k) c).1.1.
Proof.
  induction cs as [|c0 cs IH]; intros i k c Hk; [done|].
  rewrite executeFrom_cons. destruct k as [|k]; cbn in Hk.
  - injection Hk as ->. by rewrite Nat.add_0_r.
  - etransitivity; [exact (IH (S i) k c Hk)|].
    by replace (S i + k)%nat with (i + S k)%nat by lia.
Qed.

Lemma executeFrom_names client cs : forall i,
  Name <$> (executeFrom client i cs).1.1 = name <$> cs.
Proof.
  induction cs as [|c cs IH]; intros i; [done|].
  rewrite executeFrom_cons. cbn. by rewrite runCommand_Name, IH.
Qed.

Lemma setSSHPort_error m m' err : setSSHPort m = (m', Some err) -> m' = m.
Proof.
  unfold setSSHPort. destruct (String.eqb _ _); [discriminate|].
  destruct (strconv.Atoi _) as [i|e]; [|congruence].
  destruct (_ || _); congruence.
Qed.

(** [Run] takes exactly one of the five ways. *)
Lemma Run_path st w m : RunPath st w m (Run st w m).
Proof.
  unfold Run. fold (loopback m).
  destruct (loopback m) eqn:Hlo; [by constructor|].
  destruct (setSSHPort m) as [m' [err|]] eqn:Hport.
  { pose proof (setSSHPort_error _ _ _ Hport) as ->. by constructor. }
  cbn zeta.
  destruct (hostKeyCheck st) eqn:Hk.
  - destruct (checkHostKey w _ _) as [key|err] eqn:Hc.
    + destruct (Connect _ _ _ _ _) as [[[client|err] t] evs] eqn:HC.
      * destruct (executeCommands client (commands st)) as [[out t'] evs'] eqn:He.
        pose proof (path_executed st w m m' (FixedHostKey key) client t evs) as P.
        rewrite Hk, He in P. apply P; eauto.
      * pose proof (path_connect st w m m' (FixedHostKey key) err t evs) as P.
        rewrite Hk in P. apply P; eauto.
    + by eapply path_hostkey.
  - destruct (Connect _ _ _ _ _) as [[[client|err] t] evs] eqn:HC.
    + destruct (executeCommands client (commands st)) as [[out t'] evs'] eqn:He.
      pose proof (path_executed st w m m' InsecureIgnoreHostKey client t evs) as P.
      rewrite Hk, He in P. apply P; eauto.
    + pose proof (path_connect st w m m' InsecureIgnoreHostKey err t evs) as P.
      rewrite Hk in P. apply P; eauto.
Qed.

(** [setSSHPort] touches nothing but the port. *)
Lemma setSSHPort_keeps m m' e :
  setSSHPort m = (m', e) ->
  Connection m' = Connection m /\ ConnectionErrors m' = ConnectionErrors m
  /\ StreamData m' = StreamData m /\ HostName (Info m') = HostName (Info m)
  /\ Username (Info m') = Username (Info m).
Proof.
  unfold setSSHPort. destruct (String.eqb _ _); [by intros [= <- <-]|].
  destruct (strconv.Atoi _) as [i|err]; [|by intros [= <- <-]].
  destruct (_ || _); by intros [= <- <-].
Qed.

(** C2. For the host result [Run] produces for a host: if
    [Connection] is false then [StreamData] is empty and
    [ConnectionErrors] is not; if [Connection] is true then
    [StreamData] has one entry per input command, in the order of the
    input commands (the entries carry the commands' names in that
    order), whatever the outcome of each command. *)
Theorem Run_stream_data st w s :
  let r := (Run st w (NewMachine s)).1 in
  if Connection r then
    length (StreamData r) = length (commands st)
    /\ Name <$> StreamData r = name <$> commands st
  else StreamData r = [] /\ ConnectionErrors r <> [].
Proof.
  assert (Hnew : StreamData (NewMachine s) = []).
  { unfold NewMachine. cbn. by destruct (Extras s). }
  destruct (Run_path st w (NewMachine s))
    as [Hlo|err Hlo Hp|m' err Hlo Hp Hk Hc|m' cb err t evs Hlo Hp Hcb HC
        |m' cb client t evs Hlo Hp Hcb HC]; cbn.
  - by rewrite Hnew.
  - by rewrite Hnew.
  - destruct (setSSHPort_keeps _ _ _ Hp) as (_ & _ & -> & _). by rewrite Hnew.
  - destruct (setSSHPort_keeps _ _ _ Hp) as (_ & _ & -> & _). by rewrite Hnew.
  - unfold executeCommands.
    by rewrite executeFrom_length, executeFrom_names.
Qed.

(** C7. For a host whose name is ["127.0.0.1"] or ["localhost"], [Run]
    returns a host result with [Connection] false and the one error
    ["[<host>] is not supported. Consider creating a feature
    proposal"], and makes no call that leaves the process: no
    known_hosts lookup, no dial, no session. *)
Theorem Run_loopback st w m :
  HostName (Info m) = "127.0.0.1" \/ HostName (Info m) = "localhost" ->
  Connection (Run st w m).1 = false
  /\ ConnectionErrors (Run st w m).1
     = ["[" +:+ HostName (Info m)
        +:+ "] is not supported. Consider creating a feature proposal"]
  /\ (Run st w m).2 = [].
Proof.
  intros Hh. unfold Run.
  assert (String.eqb (HostName (Info m)) "127.0.0.1"
          || String.eqb (HostName (Info m)) "localhost" = true) as ->.
  { destruct Hh as [-> | ->]; reflexivity. }
  done.
Qed.

(** C9. On every failure path of [Run] (loopback host, rejected port,
    failed host-key lookup, failed connection) the returned host result
    has exactly one element in [ConnectionErrors]: the loopback message,
    or the text of the error wrapped with the name of the step that
    failed. *)
Theorem Run_failure_single_error st w m :
  Connection (Run st w m).1 = false ->
  length (ConnectionErrors (Run st w m).1) = 1%nat
  /\ (ConnectionErrors (Run st w m).1
        = ["[" +:+ HostName (Info m)
           +:+ "] is not supported. Consider creating a feature proposal"]
      \/ exists step err,
           (step = "failed port validation" \/ step = "failed host key check"
            \/ step = "failed client connection")
           /\ ConnectionErrors (Run st w m).1
              = [step +:+ ": " +:+ errors.Error err]).
Proof.
  destruct (Run_path st w m)
    as [Hlo|err Hlo Hp|m' err Hlo Hp Hk Hc|m' cb err t evs Hlo Hp Hcb HC
        |m' cb client t evs Hlo Hp Hcb HC]; cbn; intros Hconn;
    try discriminate; (split; [done|]); [by left|right..].
  - exists "failed port validation", err. split; [by left|done].
  - exists "failed host key check", err. split; [by right; left|done].
  - exists "failed client connection", err. split; [by right; right|done].
Qed.

Lemma executeFrom_sessions client cs : forall i,
  length (filter (fun e => isNewSession e = true) (executeFrom client i cs).2)
  = length cs.
Proof.
  induction cs as [|c cs IH]; intros i; [done|].
  cbn [executeFrom]. specialize (IH (S i)).
  destruct (executeFrom client (S i) cs) as [[out t'] evs'].
  unfold runCommand.
  destruct (NewSession client i) as [took [err|]]; cbn -[filter] in *.
  - rewrite filter_cons_True by done. cbn. by rewrite IH.
  - destruct (run_err _) as [[]|]; cbn -[filter];
      (rewrite filter_cons_True by done; rewrite filter_cons_False by done);
      cbn; by rewrite IH.
Qed.

(** C3, as the code has it.  [executeCommands] tells four outcomes of
    a command apart, and records each in that command's [Stream]:
    completion records the exit code the remote process reported;
    termination without an exit status records -1 and an error that
    says the exit code is missing; failure to open the session records
    -1, an error, and empty stdout and stderr; any other failure of
    [session.Run] records -1 and an error, with stdout and stderr as
    captured.  No failure stops the loop or reaches the caller: the
    result has one entry per command, a session is asked for every
    command, and the entry of a command depends on the outcome of that
    command alone. *)
Theorem executeCommands_outcomes client cs k c :
  cs !! k = Some c ->
  length (executeCommands client cs).1.1 = length cs
  /\ length (filter (fun e => isNewSession e = true)
               (executeCommands client cs).2) = length cs
  /\ exists sd,
       (executeCommands client cs).1.1 !! k = Some sd
       /\ Name sd = name c
       /\ match outcome client k c with
          | Completed code => ExitCode sd = code
          | ExitMissing =>
              ExitCode sd = -1
              /\ StreamErrors sd
                 = ["Exit code missing: " +:+ errors.Error ExitMissingError]
          | NoSession err =>
              ExitCode sd = -1
              /\ StreamErrors sd
                 = ["error type=(" +:+ errors.TypeName (errors.Cause err)
                    +:+ "): Failed to create NewSession: "
                    +:+ errors.Error err +:+ LF]
              /\ Stdout sd = "" /\ Stderr sd = ""
          | RunFailed err =>
              ExitCode sd = -1
              /\ StreamErrors sd
                 = ["Failed session Run: [" +:+ errors.TypeName (errors.Cause err)
                    +:+ "]: " +:+ errors.Error err]
              /\ Stdout sd = TrimSpace (run_stdout (SessionRun client k (cmd c)))
              /\ Stderr sd = TrimSpace (run_stderr (SessionRun client k (cmd c)))
          end.
Proof.
  intros Hk. unfold executeCommands.
  split; [apply executeFrom_length|]. split; [apply executeFrom_sessions|].
  eexists. split; [exact (executeFrom_lookup client cs 0%nat k c Hk)|].
  split; [apply runCommand_Name|].
  cbn [Nat.add]. unfold outcome, runCommand.
  destruct (NewSession client k) as [took [err|]]; [done|].
  destruct (run_err (SessionRun client k (cmd c))) as [[]|]; done.
Qed.

End RunProofs.

Section ConnectProofs.
Context `{GoLib}.

(** The loop of the goroutine, one turn unfolded. *)
Lemma dialLoop_eq w addr conf wait r k :
  dialLoop w addr conf wait r k
  = match dial_result (dial w k addr conf) with
    | inr err =>
        if 0 <? r then
          let rest := dialLoop w addr conf wait (r - 1) (S k) in
          {| loop_result := loop_result rest;
             loop_took := dial_took (dial w k addr conf)
                          + sleepTime (wrap64 (wait * Second)) + loop_took rest;
             loop_events := EvDial addr conf :: EvSleep (wrap64 (wait * Second))
                            :: loop_events rest |}
        else {| loop_result := inr err;
                loop_took := dial_took (dial w k addr conf);
                loop_events := [EvDial addr conf] |}
    | inl client =>
        {| loop_result := inl client;
           loop_took := dial_took (dial w k addr conf);
           loop_events := [EvDial addr conf] |}
    end.
Proof.
  match goal with |- _ = ?R => set (rhs := R) end.
  simp dialLoop. subst rhs.
  destruct (dial_result (dial w k addr conf)) as [client|err];
    destruct (Z_lt_dec 0 r) as [Hr|Hr]; cbn; try reflexivity.
  - by destruct (Z.ltb_spec 0 r); [|lia].
  - by destruct (Z.ltb_spec 0 r); [lia|].
Qed.

(** The goroutine of [Connect] dials one address with one
    configuration, and sleeps [wait] seconds in between. *)
Lemma dialLoop_events w addr conf wait n : forall r k,
  Z.to_nat r = n ->
  Forall (fun e => e = EvDial addr conf \/ e = EvSleep (wrap64 (wait * Second)))
         (loop_events (dialLoop w addr conf wait r k)).
Proof.
  induction n as [|n IH]; intros r k Hn; rewrite dialLoop_eq;
    destruct (dial_result (dial w k addr conf)) as [client|err];
    try (repeat constructor; by auto);
    destruct (Z.ltb_spec 0 r); try lia; try (repeat constructor; by auto).
  cbn. constructor; [by auto|]. constructor; [by auto|].
  apply IH. lia.
Qed.

Lemma Connect_events w m conf r wait :
  Forall (fun e => e = EvDial (address m) conf
                   \/ e = EvSleep (wrap64 (wait * Second)))
         (Connect w m conf r wait).2.
Proof.
  unfold Connect. destruct (Timeout conf =? 0).
  - destruct (dial_result _); repeat constructor; by auto.
  - cbn zeta. destruct (_ || _); cbn; by eapply dialLoop_events.
Qed.

(** What the goroutine sends is what one of its dials returned. *)
Lemma dialLoop_origin w addr conf wait n : forall r k,
  Z.to_nat r = n ->
  exists j, (k <= j <= k + n)%nat
            /\ loop_result (dialLoop w addr conf wait r k)
               = dial_result (dial w j addr conf).
Proof.
  induction n as [|n IH]; intros r k Hn; rewrite dialLoop_eq;
    destruct (dial_result (dial w k addr conf)) as [client|err] eqn:Hk;
    try (exists k; split; [lia|by rewrite Hk]);
    destruct (Z.ltb_spec 0 r); try lia;
    try (exists k; split; [lia|by rewrite Hk]).
  cbn [loop_result].
  destruct (IH (r - 1) (S k) ltac:(lia)) as (j & Hj & ->).
  exists j. split; [lia|done].
Qed.


Lemma executeFrom_events client cs : forall i,
  Forall (fun e => e = EvNewSession \/ exists c, e = EvSessionRun c)
         (executeFrom client i cs).2.
Proof.
  induction cs as [|c cs IH]; intros i; [constructor|].
  cbn [executeFrom]. specialize (IH (S i)).
  destruct (executeFrom client (S i) cs) as [[out t'] evs'].
  unfold runCommand.
  destruct (NewSession client i) as [took [err|]]; cbn in *.
  - constructor; by auto.
  - destruct (run_err _) as [[]|]; cbn;
      (constructor; [by auto|]); (constructor; [by eauto|]); done.
Qed.


End ConnectProofs.

Section HostKeyProofs.
Context `{GoLib}.

Lemma prefix_app (p s : string) :
  String.prefix p s = true <-> exists b, s = p +:+ b.
Proof.
  revert p. induction s as [|a' s IH]; intros [|a p]; cbn.
  - split; [by exists ""|done].
  - split; [done|by intros [b ?]].
  - split; [by eexists|done].
  - destruct (Ascii.ascii_dec a a') as [->|Hne].
    + rewrite IH. split; intros [b Hb]; exists b;
        [cbn; by rewrite Hb|cbn in Hb; by injection Hb].
    + split; [done|]. intros [b Hb]. cbn in Hb. by injection Hb.
Qed.

(** [strings.Contains] is substring containment. *)
Lemma Contains_substring (s sub : string) :
  strings.Contains s sub = true <-> exists a b, s = a +:+ sub +:+ b.
Proof.
  induction s as [|c s IH]; cbn [strings.Contains].
  - rewrite orb_false_r, prefix_app. split.
    + intros [b Hb]. by exists "", b.
    + intros (a & b & Hab). destruct a; [by exists b|discriminate].
  - rewrite orb_true_iff, prefix_app, IH. split.
    + intros [[b Hb] | (a & b & Hab)]; [by exists "", b|].
      exists (String c a), b. cbn. by rewrite Hab.
    + intros (a & b & Hab). destruct a as [|c' a]; [left; by exists b|].
      right. exists a, b. cbn in Hab. by injection Hab.
Qed.

(** The scanner loop stops at the first line that passes its test. *)
Lemma scanHostKey_skip hp pre rest :
  Forall (fun l => knownLine hp l = false) pre ->
  scanHostKey (pre ++ rest) hp = scanHostKey rest hp.
Proof.
  induction 1 as [|l pre Hl _ IH]; [done|].
  cbn [app scanHostKey]. unfold knownLine in Hl.
  destruct (Nat.eqb (length (strings.Split l " ")) 3); cbn in *; [|exact IH].
  by rewrite Hl.
Qed.

Lemma scanHostKey_hit hp line rest :
  knownLine hp line = true ->
  scanHostKey (line :: rest) hp
  = match ParseAuthorizedKey line with
    | inr err =>
        inr (errors.Wrap err
               ("error parsing [" +:+ Quote (nth 2 (strings.Split line " ") "")
                +:+ "]"))
    | inl key => inl (Some key)
    end.
Proof.
  unfold knownLine. intros [H3 Hc]%andb_true_iff.
  cbn [scanHostKey]. by rewrite H3, Hc.
Qed.


(** C10. The known-hosts lookup matches by substring: the target is
    [host] when the port is ["22"] and ["[host]:port"] otherwise, and
    the lookup returns the parsed key of the first line of known_hosts
    that has exactly three space-separated fields and whose first field
    has the target as a substring.  So a host whose name is a substring
    of the entry of another trusted host gets that other host's key. *)
Theorem checkHostKey_first_match w host port pre line post a b key :
  known_hosts w = inl (pre ++ line :: post) ->
  Forall (fun l => knownLine (hostport host port) l = false) pre ->
  length (strings.Split line " ") = 3%nat ->
  nth 0 (strings.Split line " ") ""
    = a +:+ (if String.eqb port "22" then host
             else "[" +:+ host +:+ "]:" +:+ port) +:+ b ->
  ParseAuthorizedKey line = inl key ->
  checkHostKey w host port = inl key.
Proof.
  intros Hw Hpre H3 Hsub Hkey. unfold checkHostKey. rewrite Hw.
  rewrite scanHostKey_skip by done.
  rewrite scanHostKey_hit, Hkey; [done|].
  unfold knownLine. rewrite H3. cbn.
  apply Contains_substring. exists a, b. exact Hsub.
Qed.






End HostKeyProofs.

Section PortProofs.
Context `{GoLib}.

Lemma allFrom_spec P n : forall i j,
  allFrom n i P = true -> i <= j < i + Z.of_nat n -> P j = true.
Proof.
  induction n as [|n IH]; intros i j Hall Hj; [lia|].
  cbn [allFrom] in Hall. apply andb_true_iff in Hall as [Hi Hrest].
  destruct (Z.eq_dec i j) as [<-|Hne]; [done|].
  apply (IH (i + 1)); [done|lia].
Qed.

(** What [Itoa] prints for a port number, [Atoi] reads back. *)
Lemma Atoi_Itoa_port i :
  1 <= i <= 65535 -> strconv.Atoi (strconv.Itoa i) = inl i.
Proof.
  intros Hi.
  assert (Hall : allFrom (Z.to_nat 65535) 1 (fun n =>
            match strconv.Atoi (strconv.Itoa n) with
            | inl j => j =? n
            | inr _ => false
            end) = true) by (vm_compute; reflexivity).
  pose proof (allFrom_spec _ _ _ i Hall) as Hi'.
  rewrite Z2Nat.id in Hi' by lia. specialize (Hi' ltac:(lia)). cbn beta in Hi'.
  destruct (strconv.Atoi (strconv.Itoa i)) as [j|e]; [|discriminate].
  f_equal. by apply Z.eqb_eq.
Qed.

Lemma setSSHPort_accepts m m' :
  setSSHPort m = (m', None) ->
  exists i, 1 <= i <= 65535 /\ Port (Info m') = strconv.Itoa i
            /\ (Port (Info m) = "" -> i = 22).
Proof.
  unfold setSSHPort. destruct (String.eqb_spec (Port (Info m)) "") as [He|He].
  - intros [= <-]. exists 22. by repeat split.
  - destruct (strconv.Atoi _) as [i|e]; [|discriminate].
    destruct (Z.ltb_spec i 1); [discriminate|].
    destruct (Z.ltb_spec 65535 i); [discriminate|]. cbn.
    intros [= <-]. exists i. cbn. repeat split; [lia..|done].
Qed.

Lemma setSSHPort_rejects m :
  Port (Info m) <> "" -> validPort (Port (Info m)) = false ->
  exists err, setSSHPort m = (m, Some err).
Proof.
  unfold setSSHPort, validPort. intros He Hv.
  destruct (String.eqb_spec (Port (Info m)) ""); [done|].
  destruct (strconv.Atoi _) as [i|e]; [|by eauto].
  destruct (Z.ltb_spec i 1), (Z.ltb_spec 65535 i); cbn; eauto.
  destruct (Z.leb_spec 1 i), (Z.leb_spec i 65535); cbn in Hv;
    try lia; discriminate.
Qed.

Lemma setSSHPort_rejected m m' err :
  setSSHPort m = (m', Some err) ->
  Port (Info m) <> "" /\ validPort (Port (Info m)) = false.
Proof.
  unfold setSSHPort, validPort.
  destruct (String.eqb_spec (Port (Info m)) ""); [discriminate|].
  split; [done|].
  destruct (strconv.Atoi _) as [i|e]; [|done].
  destruct (Z.ltb_spec i 1), (Z.ltb_spec 65535 i); try discriminate;
    destruct (Z.leb_spec 1 i), (Z.leb_spec i 65535); cbn; try lia; done.
Qed.

(** C6, as the code has it.  For a host that is not a loopback host:
    an empty port string becomes ["22"] in the output; a port string
    that is not empty and does not parse as an integer in [1, 65535]
    (such as ["0"], ["70000"], ["abc"]) yields a validation error, a
    host result with [Connection] false and no call out of the process,
    and that result keeps the rejected port string; every other host
    result, so every one with [Connection] true, carries the decimal
    text of an integer in [1, 65535] as its port. *)
Theorem Run_port st w m :
  loopback m = false ->
  (Port (Info m) = "" -> Port (Info (Run st w m).1) = "22")
  /\ (Port (Info m) <> "" -> validPort (Port (Info m)) = false ->
      Connection (Run st w m).1 = false
      /\ (exists err, ConnectionErrors (Run st w m).1
                      = ["failed port validation: " +:+ errors.Error err])
      /\ (Run st w m).2 = []
      /\ Port (Info (Run st w m).1) = Port (Info m))
  /\ ((exists i, 1 <= i <= 65535
                 /\ Port (Info (Run st w m).1) = strconv.Itoa i
                 /\ strconv.Atoi (strconv.Itoa i) = inl i)
      \/ (Connection (Run st w m).1 = false
          /\ Port (Info m) <> "" /\ validPort (Port (Info m)) = false))
  /\ validPort "0" = false /\ validPort "70000" = false
  /\ validPort "abc" = false.
Proof.
  intros Hlo.
  assert (Hok : forall m', setSSHPort m = (m', None) ->
            exists i, 1 <= i <= 65535 /\ Port (Info m') = strconv.Itoa i
                      /\ strconv.Atoi (strconv.Itoa i) = inl i
                      /\ (Port (Info m) = "" -> i = 22)).
  { intros m' Hp. destruct (setSSHPort_accepts _ _ Hp) as (i & Hi & Hport & H22).
    exists i. repeat split; try done; try lia. by apply Atoi_Itoa_port. }
  destruct (Run_path st w m)
    as [Hlo'|err Hlo' Hp|m' err Hlo' Hp Hk Hc|m' cb err t evs Hlo' Hp Hcb HC
        |m' cb client t evs Hlo' Hp Hcb HC]; [congruence|..]; cbn.
  - destruct (setSSHPort_rejected _ _ _ Hp) as [He Hv].
    repeat split; try done; eauto.
  - destruct (Hok _ Hp) as (i & Hi & Hport & Hrt & H22).
    split; [intros He; by rewrite Hport, (H22 He)|].
    split; [intros He Hv; destruct (setSSHPort_rejects _ He Hv); congruence|].
    split; [left; by eauto|done].
  - destruct (Hok _ Hp) as (i & Hi & Hport & Hrt & H22).
    split; [intros He; by rewrite Hport, (H22 He)|].
    split; [intros He Hv; destruct (setSSHPort_rejects _ He Hv); congruence|].
    split; [left; by eauto|done].
  - destruct (Hok _ Hp) as (i & Hi & Hport & Hrt & H22).
    split; [intros He; by rewrite Hport, (H22 He)|].
    split; [intros He Hv; destruct (setSSHPort_rejects _ He Hv); congruence|].
    split; [left; by eauto|done].
Qed.

End PortProofs.

Section RetryProofs.
Context `{GoLib}.

Lemma wrap64_small z : - 2 ^ 63 <= z < 2 ^ 63 -> wrap64 z = z.
Proof. intros Hz. unfold wrap64. rewrite Z.mod_small; lia. Qed.

(** Without overflow [deadline] is [timeout + retry * wait + retry *
    timeout], and the context expires one second later. *)
Lemma deadline_exact T r wait :
  0 <= T -> 0 <= r -> 0 <= wait ->
  (T + r * wait + r * T + 1) * Second < 2 ^ 63 ->
  wrap64 (T * Second) = T * Second
  /\ (0 < r -> wrap64 (wait * Second) = wait * Second)
  /\ deadline (wrap64 (T * Second)) r wait = (T + r * wait + r * T) * Second
  /\ ctxExpiry (wrap64 (T * Second)) r wait
     = (T + r * wait + r * T + 1) * Second.
Proof.
  intros HT Hr Hw Hb. unfold ctxExpiry.
  assert (Hd : deadline (wrap64 (T * Second)) r wait
               = (T + r * wait + r * T) * Second
               /\ wrap64 (T * Second) = T * Second).
  { unfold deadline, Second in *.
    pose proof (Z.mul_nonneg_nonneg r wait Hr Hw) as Hrw.
    pose proof (Z.mul_nonneg_nonneg r T Hr HT) as HrT.
    assert (HT' : wrap64 (T * 1000000000) = T * 1000000000)
      by (apply wrap64_small; lia).
    split; [|exact HT']. rewrite HT'.
    replace (r * (T * 1000000000)) with (r * T * 1000000000) by ring.
    rewrite (wrap64_small (r * wait)) by lia.
    rewrite (wrap64_small (r * wait * 1000000000)) by lia.
    rewrite (wrap64_small (r * T * 1000000000)) by lia.
    rewrite (wrap64_small (T * 1000000000 + _)) by lia.
    rewrite wrap64_small by lia. lia. }
  destruct Hd as [Hd HT']. rewrite Hd. unfold Second in *.
  pose proof (Z.mul_nonneg_nonneg r wait Hr Hw) as Hrw.
  pose proof (Z.mul_nonneg_nonneg r T Hr HT) as HrT.
  repeat split; try done.
  - intros Hr0. apply wrap64_small. nia.
  - rewrite (wrap64_small (1 * 1000000000)) by lia.
    rewrite wrap64_small by lia. lia.
Qed.

(** A loop whose first [n] dials fail at once, with budget for them,
    ends with whatever the next dial gives. *)
Lemma dialLoop_failing w addr conf wait n : forall r k,
  Z.of_nat n <= r ->
  (forall j, (k <= j < k + n)%nat ->
     dial_took (dial w j addr conf) = 0
     /\ exists e, dial_result (dial w j addr conf) = inr e) ->
  (r = Z.of_nat n \/ exists client,
      dial_result (dial w (k + n)%nat addr conf) = inl client) ->
  dialLoop w addr conf wait r k
  = {| loop_result := dial_result (dial w (k + n)%nat addr conf);
       loop_took := Z.of_nat n * sleepTime (wrap64 (wait * Second))
                    + dial_took (dial w (k + n)%nat addr conf);
       loop_events := retryTrace addr conf (wrap64 (wait * Second)) n |}.
Proof.
  induction n as [|n IH]; intros r k Hr Hfail Hlast; rewrite dialLoop_eq.
  - rewrite Nat.add_0_r in *. cbn.
    destruct (dial_result (dial w k addr conf)) as [client|e] eqn:Hd; [done|].
    destruct Hlast as [-> | [client ?]]; [done|discriminate].
  - destruct (Hfail k ltac:(lia)) as [Ht [e He]]. rewrite He, Ht.
    destruct (Z.ltb_spec 0 r); [|lia]. cbn zeta.
    rewrite (IH (r - 1) (S k)).
    + replace (S k + n)%nat with (k + S n)%nat by lia.
      cbn [retryTrace loop_took loop_result loop_events]. f_equal.
      rewrite Nat2Z.inj_succ. ring.
    + lia.
    + intros j Hj. apply Hfail. lia.
    + replace (S k + n)%nat with (k + S n)%nat by lia.
      destruct Hlast as [-> | ?]; [left; lia|by right].
Qed.

(** A loop whose first [n] dials fail, with budget for them, and whose
    next dial succeeds ends there, however long the dials took. *)
Lemma dialLoop_success w addr conf wait n client : forall r k,
  Z.of_nat n <= r ->
  (forall j, (k <= j < k + n)%nat ->
     exists e, dial_result (dial w j addr conf) = inr e) ->
  dial_result (dial w (k + n)%nat addr conf) = inl client ->
  loop_result (dialLoop w addr conf wait r k) = inl client
  /\ loop_events (dialLoop w addr conf wait r k)
     = retryTrace addr conf (wrap64 (wait * Second)) n.
Proof.
  induction n as [|n IH]; intros r k Hr Hfail Hok; rewrite dialLoop_eq.
  - rewrite Nat.add_0_r in Hok. by rewrite Hok.
  - destruct (Hfail k ltac:(lia)) as [e He]. rewrite He.
    destruct (Z.ltb_spec 0 r); [|lia]. cbn zeta.
    cbn [loop_result loop_events retryTrace].
    destruct (IH (r - 1) (S k)) as [Hres Hev].
    + lia.
    + intros j Hj. apply Hfail. lia.
    + by replace (S k + n)%nat with (k + S n)%nat by lia.
    + by rewrite Hres, Hev.
Qed.

Lemma retryTrace_dials addr conf d n :
  length (filter (fun e => isDial e = true) (retryTrace addr conf d n)) = S n.
Proof.
  induction n as [|n IH]; [done|].
  cbn [retryTrace]. rewrite filter_cons_True by done.
  rewrite filter_cons_False by done. cbn. by rewrite IH.
Qed.

(** C4. With [Timeout] zero [Connect] dials exactly once, with no
    deadline and no retry.  With a timeout of [T > 0] seconds and a wait
    of [wait >= 0] seconds such that [3 * T + 2 * wait + 1] seconds are
    less than [2 ^ 63] nanoseconds, a retry count of 2, and a target
    whose every dial fails at once, [Connect] dials exactly three times,
    sleeps [wait] seconds between one dial and the next, and returns the
    error of the last dial.  A dial that succeeds ends the loop, however
    long the dials took: after [n] failed dials and one successful one
    there are [n + 1] dials and no more, and [Connect] returns the client
    of the successful dial unless the deadline came first. *)
Theorem Connect_attempts w m conf T wait :
  (Timeout conf = 0 -> forall retry,
     Connect w m conf retry wait
     = (match dial_result (dial w 0%nat (address m) conf) with
        | inl client => inl client
        | inr err =>
            inr (errors.Wrap err "could not establish machine connection")
        end,
        dial_took (dial w 0%nat (address m) conf),
        [EvDial (address m) conf]))
  /\ (Timeout conf = wrap64 (T * Second) -> 0 < T -> 0 <= wait ->
      (3 * T + 2 * wait + 1) * Second < 2 ^ 63 ->
      (forall j, dial_took (dial w j (address m) conf) = 0
                 /\ exists e, dial_result (dial w j (address m) conf) = inr e) ->
      forall last, dial_result (dial w 2%nat (address m) conf) = inr last ->
      Connect w m conf 2 wait
      = (inr last, 2 * (wait * Second),
         [EvDial (address m) conf; EvSleep (wait * Second);
          EvDial (address m) conf; EvSleep (wait * Second);
          EvDial (address m) conf]))
  /\ (forall retry n client,
      Z.of_nat n <= retry ->
      (forall j, (j < n)%nat ->
         exists e, dial_result (dial w j (address m) conf) = inr e) ->
      dial_result (dial w n (address m) conf) = inl client ->
      let g := dialLoop w (address m) conf wait retry 0%nat in
      loop_result g = inl client
      /\ loop_events g
         = retryTrace (address m) conf (wrap64 (wait * Second)) n
      /\ length (filter (fun e => isDial e = true) (loop_events g)) = S n
      /\ (Timeout conf <> 0 ->
          (Connect w m conf retry wait).2 = loop_events g
          /\ (loop_took g < ctxExpiry (Timeout conf) retry wait ->
              (Connect w m conf retry wait).1.1 = inl client))).
Proof.
  split; [|split].
  - intros Hz retry. unfold Connect. rewrite Hz. cbn.
    by destruct (dial_result _).
  - intros HT HT0 Hw Hb Hfail last Hlast.
    destruct (deadline_exact T 2 wait) as (HT' & Hwait & _ & Hexp);
      [lia..|].
    specialize (Hwait ltac:(lia)).
    unfold Connect. rewrite HT.
    destruct (Z.eqb_spec (wrap64 (T * Second)) 0) as [Hz|_];
      [rewrite HT' in Hz; unfold Second in Hz; lia|].
    cbn zeta. rewrite Hexp.
    rewrite (dialLoop_failing w (address m) conf wait 2 2 0);
      [|done|intros j _; apply Hfail|by left].
    cbn [Nat.add loop_took loop_result loop_events retryTrace].
    rewrite Hwait, Hlast. destruct (Hfail 2%nat) as [-> _].
    unfold sleepTime. rewrite Z.max_r by (unfold Second; lia).
    destruct (Z.ltb_spec (Z.of_nat 2 * (wait * Second) + 0)
                         ((T + 2 * wait + 2 * T + 1) * Second)) as [_|Hge];
      [|unfold Second in *; lia].
    cbn [orb]. do 2 f_equal. lia.
  - intros retry n client Hn Hfail Hok g.
    destruct (dialLoop_success w (address m) conf wait n client retry 0)
      as [Hres Hev]; [done|intros j Hj; apply Hfail; lia|done|].
    fold g in Hres, Hev.
    split; [done|]. split; [done|]. split.
    + rewrite Hev. apply retryTrace_dials.
    + intros Hnz. unfold Connect.
      destruct (Z.eqb_spec (Timeout conf) 0) as [|_]; [done|].
      cbn zeta. fold g. split; [by destruct (_ || _)|].
      intros Hlt.
      destruct (Z.ltb_spec (loop_took g) (ctxExpiry (Timeout conf) retry wait));
        [done|lia].
Qed.

(** C5. With a timeout of [T > 0] seconds, [retry >= 0], [wait >= 0]
    and [T + retry * wait + retry * T + 1] seconds less than [2 ^ 63]
    nanoseconds, [Connect] bounds the dial loop by a deadline of
    [T + retry * wait + retry * T] seconds plus a margin of one second:
    it never takes longer, and it returns the result of the loop when
    the loop ends before the deadline.  When the deadline comes first
    [Connect] returns, at the deadline, the error ["Retried ... No more
    retries!"] whatever the dials returned; the dials returning errors
    of their library, this is neither what the loop ended with nor what
    any dial returned. *)
Theorem Connect_deadline w m conf T r wait :
  0 < T -> 0 <= r -> 0 <= wait ->
  (T + r * wait + r * T + 1) * Second < 2 ^ 63 ->
  Timeout conf = wrap64 (T * Second) ->
  let expiry := (T + r * wait + r * T + 1) * Second in
  let g := dialLoop w (address m) conf wait r 0%nat in
  deadline (Timeout conf) r wait = (T + r * wait + r * T) * Second
  /\ ctxExpiry (Timeout conf) r wait = expiry
  /\ (Connect w m conf r wait).1.2 <= expiry
  /\ (loop_took g < expiry ->
      Connect w m conf r wait = (loop_result g, loop_took g, loop_events g))
  /\ (expiry < loop_took g ->
      (Connect w m conf r wait).1 = (inr (deadlineError r wait), expiry)
      /\ match (Connect w m conf r wait).1.1 with
         | inl _ => False
         | inr err =>
             errors.Error err
             = "Retried " +:+ strconv.Itoa r +:+ " time(s) with a "
               +:+ DurationString (wrap64 (wait * Second))
               +:+ " wait. No more retries!"
         end
      /\ ((forall j e, dial_result (dial w j (address m) conf) = inr e ->
                       fromLibrary e = true) ->
          (Connect w m conf r wait).1.1 <> loop_result g
          /\ forall j, (Connect w m conf r wait).1.1
                       <> dial_result (dial w j (address m) conf))).
Proof.
  intros HT Hr Hw Hb Hconf expiry g.
  destruct (deadline_exact T r wait) as (HT' & _ & Hd & Hexp); [lia..|].
  rewrite Hconf, Hd, Hexp. fold expiry.
  assert (Hnz : (wrap64 (T * Second) =? 0) = false).
  { apply Z.eqb_neq. rewrite HT'. unfold Second. lia. }
  assert (HC : Connect w m conf r wait
               = if (loop_took g <? expiry)
                    || ((loop_took g =? expiry) && select_tie w)
                 then (loop_result g, loop_took g, loop_events g)
                 else (inr (deadlineError r wait), expiry, loop_events g)).
  { unfold Connect. rewrite Hconf, Hnz. cbn zeta. by rewrite Hexp. }
  rewrite HC. split; [done|]. split; [done|]. split; [|split].
  - destruct (Z.ltb_spec (loop_took g) expiry); cbn; [lia|].
    destruct (Z.eqb_spec (loop_took g) expiry); cbn; [|lia].
    destruct (select_tie w); cbn; lia.
  - intros Hlt. by destruct (Z.ltb_spec (loop_took g) expiry); [|lia].
  - intros Hgt. destruct (Z.ltb_spec (loop_took g) expiry); [lia|].
    destruct (Z.eqb_spec (loop_took g) expiry); [lia|]. cbn.
    split; [done|]. split; [done|]. intros Hlib.
    assert (Hdial : forall j, inr (deadlineError r wait)
                              <> dial_result (dial w j (address m) conf)).
    { intros j Heq. symmetry in Heq. by apply Hlib in Heq. }
    split; [|exact Hdial].
    destruct (dialLoop_origin w (address m) conf wait (Z.to_nat r) r 0 eq_refl)
      as (j & _ & Hj).
    fold g in Hj. rewrite Hj. apply Hdial.
Qed.

End RetryProofs.

(** * Properties of the further code *)

Section PortMore.
Context `{GoLib}.

Lemma withPort_same m : withPort m (Port (Info m)) = m.
Proof. by destruct m as [? ? ? ? []]. Qed.

(** X1. [setSSHPort] puts the port into a normal form: a machine whose
    port it accepted is accepted again and left as it is, and the port it
    wrote denotes the integer the input port denoted (so ["+0022"] and
    ["22"] both give ["22"]). *)
Theorem setSSHPort_normal_form m m' :
  setSSHPort m = (m', None) ->
  setSSHPort m' = (m', None)
  /\ (Port (Info m) <> "" ->
      strconv.Atoi (Port (Info m')) = strconv.Atoi (Port (Info m))).
Proof.
  intros Hp.
  assert (Hval : exists i, 1 <= i <= 65535 /\ Port (Info m') = strconv.Itoa i
                 /\ (Port (Info m) <> "" -> strconv.Atoi (Port (Info m)) = inl i)).
  { unfold setSSHPort in Hp.
    destruct (String.eqb_spec (Port (Info m)) "") as [He|He].
    - injection Hp as <-. exists 22. by repeat split.
    - destruct (strconv.Atoi _) as [i|e]; [|discriminate].
      destruct (Z.ltb_spec i 1); [discriminate|].
      destruct (Z.ltb_spec 65535 i); [discriminate|]. cbn in Hp.
      injection Hp as <-. exists i. cbn. repeat split; [lia..|done]. }
  destruct Hval as (i & Hi & Hport & Hin).
  pose proof (Atoi_Itoa_port i Hi) as Hrt.
  split.
  - unfold setSSHPort. rewrite Hport.
    destruct (String.eqb_spec (strconv.Itoa i) "") as [He|_].
    { rewrite He in Hrt. discriminate Hrt. }
    rewrite Hrt.
    destruct (Z.ltb_spec i 1); [lia|]. destruct (Z.ltb_spec 65535 i); [lia|].
    cbn. by rewrite <- Hport, withPort_same.
  - intros He. by rewrite Hport, Hrt, (Hin He).
Qed.

End PortMore.

Section ConnectMore.
Context `{GoLib}.

Ltac count_events :=
  cbn [loop_events snd];
  repeat ((rewrite filter_cons_True by done) || (rewrite filter_cons_False by done));
  rewrite ?filter_nil; cbn [length].

Lemma dialLoop_counts w addr conf wait n : forall r k,
  Z.to_nat r = n ->
  (1 <= dials (loop_events (dialLoop w addr conf wait r k)) <= n + 1)%nat
  /\ (sleeps (loop_events (dialLoop w addr conf wait r k)) + 1
      = dials (loop_events (dialLoop w addr conf wait r k)))%nat.
Proof.
  unfold dials, sleeps.
  induction n as [|n IH]; intros r k Hn; rewrite dialLoop_eq;
    destruct (dial_result (dial w k addr conf)) as [client|err];
    try (count_events; lia);
    destruct (Z.ltb_spec 0 r); try lia; try (count_events; lia).
  destruct (IH (r - 1) (S k) ltac:(lia)) as [Hd Hs].
  count_events. lia.
Qed.

(** X2. Whatever the target does, [Connect] dials at least once and at
    most [retry + 1] times (once when [retry] is negative), and sleeps
    exactly once between two dials; with a zero timeout it dials exactly
    once and never sleeps. *)
Theorem Connect_bounded_attempts w m conf retry wait :
  (1 <= dials (Connect w m conf retry wait).2 <= Z.to_nat retry + 1)%nat
  /\ (sleeps (Connect w m conf retry wait).2 + 1
      = dials (Connect w m conf retry wait).2)%nat
  /\ (Timeout conf = 0 -> dials (Connect w m conf retry wait).2 = 1%nat).
Proof.
  unfold Connect. destruct (Z.eqb_spec (Timeout conf) 0) as [Hz|Hnz].
  - destruct (dial_result _); unfold dials, sleeps; count_events;
      repeat split; lia.
  - cbn zeta.
    destruct (dialLoop_counts w (address m) conf wait (Z.to_nat retry) retry 0
                eq_refl) as [Hd Hs].
    destruct (_ || _); cbn [snd]; repeat split; try done; lia.
Qed.

Lemma dialLoop_took_bound w addr conf wait D n : forall r k,
  Z.to_nat r = n ->
  (forall j, 0 <= dial_took (dial w j addr conf) <= D) ->
  0 <= loop_took (dialLoop w addr conf wait r k)
    <= D + Z.of_nat n * (sleepTime (wrap64 (wait * Second)) + D).
Proof.
  assert (HS : 0 <= sleepTime (wrap64 (wait * Second)))
    by (unfold sleepTime; lia).
  induction n as [|n IH]; intros r k Hn Hd; rewrite dialLoop_eq;
    pose proof (Hd k) as Hk;
    destruct (dial_result (dial w k addr conf)) as [client|err];
    try (cbn; nia);
    destruct (Z.ltb_spec 0 r); try lia; try (cbn; nia).
  cbn [loop_took]. specialize (IH (r - 1) (S k) ltac:(lia) Hd). nia.
Qed.

(** X3. The deadline of [Connect] covers the worst case: when no dial
    takes longer than the timeout of [T > 0] seconds (and nothing
    overflows), the dial loop ends within [T + retry * wait + retry * T]
    seconds, so the context never expires first and [Connect] returns
    what the loop ended with, never the deadline error. *)
Theorem Connect_within_deadline w m conf T r wait :
  0 < T -> 0 <= r -> 0 <= wait ->
  (T + r * wait + r * T + 1) * Second < 2 ^ 63 ->
  Timeout conf = wrap64 (T * Second) ->
  (forall j, 0 <= dial_took (dial w j (address m) conf) <= T * Second) ->
  let g := dialLoop w (address m) conf wait r 0%nat in
  loop_took g <= (T + r * wait + r * T) * Second
  /\ Connect w m conf r wait = (loop_result g, loop_took g, loop_events g).
Proof.
  intros HT Hr Hw Hb Hconf Hd g.
  destruct (deadline_exact T r wait) as (HT' & Hwait & _ & Hexp); [lia..|].
  assert (Hg : loop_took g <= (T + r * wait + r * T) * Second).
  { pose proof (dialLoop_took_bound w (address m) conf wait (T * Second)
                  (Z.to_nat r) r 0 eq_refl Hd) as Hbound.
    fold g in Hbound. rewrite Z2Nat.id in Hbound by lia.
    destruct (Z.eq_dec r 0) as [->|Hr0]; [lia|].
    rewrite Hwait in Hbound by lia. unfold sleepTime in Hbound.
    rewrite Z.max_r in Hbound by (unfold Second; lia). lia. }
  split; [exact Hg|].
  unfold Connect. rewrite Hconf.
  destruct (Z.eqb_spec (wrap64 (T * Second)) 0) as [Hz|_];
    [rewrite HT' in Hz; unfold Second in Hz; lia|].
  cbn zeta. rewrite Hexp. fold g.
  destruct (Z.ltb_spec (loop_took g) ((T + r * wait + r * T + 1) * Second));
    [done|unfold Second in *; lia].
Qed.

(** X4. [Connect] makes nothing up: a client it returns is the client
    of one of its at most [retry + 1] dials, and an error it returns is
    the error of one of those dials (wrapped with ["could not establish
    machine connection"] when the timeout is zero) or the deadline
    error. *)
Theorem Connect_result_origin w m conf retry wait :
  exists j, (j <= Z.to_nat retry)%nat /\
    match (Connect w m conf retry wait).1.1 with
    | inl client => dial_result (dial w j (address m) conf) = inl client
    | inr err =>
        (Timeout conf <> 0 /\ err = deadlineError retry wait)
        \/ (Timeout conf <> 0
            /\ dial_result (dial w j (address m) conf) = inr err)
        \/ (Timeout conf = 0 /\ exists cause,
              dial_result (dial w j (address m) conf) = inr cause
              /\ err = errors.Wrap cause "could not establish machine connection")
    end.
Proof.
  unfold Connect. destruct (Z.eqb_spec (Timeout conf) 0) as [Hz|Hnz].
  - exists 0%nat. split; [lia|].
    destruct (dial_result _) as [client|err] eqn:Hd; cbn; [done|].
    right; right. eauto.
  - cbn zeta.
    destruct (dialLoop_origin w (address m) conf wait (Z.to_nat retry) retry 0
                eq_refl) as (j & Hj & Hres).
    exists j. split; [lia|].
    destruct (_ || _); cbn [fst].
    + rewrite Hres. destruct (dial_result _); [done|]. right; left. done.
    + by left.
Qed.

End ConnectMore.

Section RunMore.
Context `{GoLib}.

Lemma setSSHPort_keeps_extras m m' e :
  setSSHPort m = (m', e) -> Extras (Info m') = Extras (Info m).
Proof.
  unfold setSSHPort. destruct (String.eqb _ _); [by intros [= <- <-]|].
  destruct (strconv.Atoi _) as [i|err]; [|by intros [= <- <-]].
  destruct (_ || _); by intros [= <- <-].
Qed.

(** X5. [Run] passes the identity of the host through: the host result
    for an inventory entry carries the entry's hostname and username
    unchanged, and its extras unchanged except that a nil map has become
    an empty one, on every path, failed or not. *)
Theorem Run_host_passthrough st w s :
  HostName (Info (Run st w (NewMachine s)).1) = HostName s
  /\ Username (Info (Run st w (NewMachine s)).1) = Username s
  /\ Extras (Info (Run st w (NewMachine s)).1)
     = Some (match Extras s with Some x => x | None => [] end).
Proof.
  assert (Hnew : HostName (Info (NewMachine s)) = HostName s
                 /\ Username (Info (NewMachine s)) = Username s
                 /\ Extras (Info (NewMachine s))
                    = Some (match Extras s with Some x => x | None => [] end)).
  { unfold NewMachine. by destruct s as [h u p [x|]]. }
  destruct Hnew as (Hh & Hu & He).
  destruct (Run_path st w (NewMachine s))
    as [Hlo|err Hlo Hp|m' err Hlo Hp Hk Hc|m' cb err t evs Hlo Hp Hcb HC
        |m' cb client t evs Hlo Hp Hcb HC]; cbn [fst failed Info]; try done;
    destruct (setSSHPort_keeps _ _ _ Hp) as (_ & _ & _ & -> & ->);
    rewrite (setSSHPort_keeps_extras _ _ _ Hp); done.
Qed.

Lemma executeFrom_all_sessions client cs : forall i,
  Forall (fun e => isSession e = true) (executeFrom client i cs).2.
Proof.
  intros i. eapply Forall_impl; [apply executeFrom_events|].
  cbn. by intros e [-> | [c ->]].
Qed.

Lemma Connect_no_sessions w m conf r wait :
  Forall (fun e => isSession e = false) (Connect w m conf r wait).2.
Proof.
  eapply Forall_impl; [apply Connect_events|]. cbn. by intros e [-> | ->].
Qed.

(** X6. [Run] opens sessions only on a connection it has: when the
    host result has [Connection] false no session was asked for and no
    command was run; when it is true, the calls of [Run] are first the
    lookup, dials and sleeps (at least one dial) and then the sessions,
    one [NewSession] per command. *)
Theorem Run_sessions_after_connect st w m :
  if Connection (Run st w m).1 then
    exists pre post,
      (Run st w m).2 = pre ++ post
      /\ Forall (fun e => isSession e = false) pre
      /\ (1 <= dials pre)%nat
      /\ Forall (fun e => isSession e = true) post
      /\ length (filter (fun e => isNewSession e = true) post)
         = length (commands st)
  else Forall (fun e => isSession e = false) (Run st w m).2.
Proof.
  destruct (Run_path st w m)
    as [Hlo|err Hlo Hp|m' err Hlo Hp Hk Hc|m' cb err t evs Hlo Hp Hcb HC
        |m' cb client t evs Hlo Hp Hcb HC]; cbn [fst snd failed Connection].
  - constructor.
  - constructor.
  - by repeat constructor.
  - apply Forall_app. split; [by destruct (hostKeyCheck st); repeat constructor|].
    match type of HC with Connect _ _ ?c _ _ = _ =>
      pose proof (Connect_no_sessions w m' c (retry st) (retryWait st)) as Hev end.
    by rewrite HC in Hev.
  - exists ((if hostKeyCheck st then [EvOpenKnownHosts] else []) ++ evs),
           (executeCommands client (commands st)).2.
    split; [by rewrite app_assoc|].
    match type of HC with Connect _ _ ?c _ _ = _ =>
      pose proof (Connect_no_sessions w m' c (retry st) (retryWait st)) as Hev;
      pose proof (Connect_bounded_attempts w m' c (retry st) (retryWait st))
        as [[Hd _] _] end.
    rewrite HC in Hev, Hd. cbn [snd] in Hev, Hd.
    split; [apply Forall_app; split;
              [by destruct (hostKeyCheck st); repeat constructor|done]|].
    split.
    { unfold dials in *. rewrite filter_app, length_app. lia. }
    split; [apply executeFrom_all_sessions|apply executeFrom_sessions].
Qed.

(** X7. In every [Stream] that [executeCommands] returns there is at
    most one error description, and an exit code other than 0 never
    comes without one. *)
Theorem executeCommands_errors_recorded client cs :
  Forall (fun sd => (length (StreamErrors sd) <= 1)%nat
                    /\ (ExitCode sd <> 0 -> length (StreamErrors sd) = 1%nat))
         (executeCommands client cs).1.1.
Proof.
  assert (Hall : forall i,
    Forall (fun sd => (length (StreamErrors sd) <= 1)%nat
                      /\ (ExitCode sd <> 0 -> length (StreamErrors sd) = 1%nat))
           (executeFrom client i cs).1.1); [|apply Hall].
  induction cs as [|c cs IH]; intros i; [constructor|].
  rewrite executeFrom_cons. constructor; [|apply IH].
  unfold runCommand. destruct (NewSession client i) as [took [err|]]; cbn.
  - split; [lia|done].
  - destruct (run_err (SessionRun client i (cmd c))) as [[]|]; cbn;
      (split; [lia|done]).
Qed.

End RunMore.

Section HostKeyMore.
Context `{GoLib}.

Lemma Split_length s sep :
  length (strings.Split s sep) = S (countByte sep s).
Proof.
  induction s as [|a s IH]; [done|].
  cbn [strings.Split countByte]. destruct (Ascii.eqb a sep); cbn.
  - by rewrite IH.
  - destruct (strings.Split s sep) as [|f fs]; cbn in *; [discriminate|done].
Qed.

Lemma scanHostKey_sound lines hp key :
  scanHostKey lines hp = inl (Some key) ->
  exists line, line ∈ lines /\ knownLine hp line = true
               /\ ParseAuthorizedKey line = inl key.
Proof.
  induction lines as [|l lines IH]; [discriminate|].
  destruct (knownLine hp l) eqn:Hl.
  - rewrite scanHostKey_hit by done.
    destruct (ParseAuthorizedKey l) as [k|err] eqn:Hk; [|discriminate].
    intros [= ->]. exists l. split; [by left|done].
  - rewrite (scanHostKey_skip hp [l] lines) by (by constructor).
    intros (line & Hin & ?)%IH. exists line. split; [by right|done].
Qed.

(** X9. A key that [checkHostKey] returns was read from the file: it
    is the parsed key of a line of known_hosts that contains exactly two
    spaces (so a line with a marker before the host, or a comment after
    the key, never matches) and whose first field has the target as a
    substring.  Without a readable file there is no key. *)
Theorem checkHostKey_sound w host port key :
  checkHostKey w host port = inl key ->
  exists lines line a b,
    known_hosts w = inl lines
    /\ line ∈ lines
    /\ countByte " " line = 2%nat
    /\ nth 0 (strings.Split line " ") "" = a +:+ hostport host port +:+ b
    /\ ParseAuthorizedKey line = inl key.
Proof.
  unfold checkHostKey. destruct (known_hosts w) as [lines|err]; [|discriminate].
  destruct (scanHostKey lines (hostport host port)) as [[k|]|err] eqn:Hs;
    try discriminate.
  intros [= ->].
  destruct (scanHostKey_sound _ _ _ Hs) as (line & Hin & Hl & Hk).
  unfold knownLine in Hl. apply andb_true_iff in Hl as [H3 Hc].
  apply Nat.eqb_eq in H3. rewrite Split_length in H3.
  apply Contains_substring in Hc as (a & b & Hab).
  exists lines, line, a, b. repeat split; try done. lia.
Qed.

(** X10. The lookup stops at the first line that passes the test: when
    that line does not parse as a key, [checkHostKey] fails with the
    parse error wrapped in ["error parsing [<third field>]"], also when
    a later line holds a good key for the host. *)
Theorem checkHostKey_first_match_unparsable w host port pre line post err :
  known_hosts w = inl (pre ++ line :: post) ->
  Forall (fun l => knownLine (hostport host port) l = false) pre ->
  knownLine (hostport host port) line = true ->
  ParseAuthorizedKey line = inr err ->
  checkHostKey w host port
  = inr (errors.Wrap err
           ("error parsing [" +:+ Quote (nth 2 (strings.Split line " ") "")
            +:+ "]")).
Proof.
  intros Hw Hpre Hline Herr. unfold checkHostKey. rewrite Hw.
  rewrite scanHostKey_skip by done.
  by rewrite scanHostKey_hit, Herr.
Qed.

End HostKeyMore.

Section MainMore.
Context `{GoLib}.
Variable st : State.

Lemma filter_none {A} (P : A -> bool) (l : list A) :
  Forall (fun x => P x <> true) l -> filter (fun x => P x = true) l = [].
Proof.
  induction 1 as [|x l Hx _ IH]; [done|]. by rewrite filter_cons_False.
Qed.

Lemma unique_at_most_one {A} (P : A -> bool) (l : list A) :
  (forall j k x y, l !! j = Some x -> l !! k = Some y ->
                   P x = true -> P y = true -> j = k) ->
  (length (filter (fun x => P x = true) l) <= 1)%nat.
Proof.
  induction l as [|a l IH]; intros Huniq; [cbn; lia|].
  destruct (P a) eqn:Ha.
  - rewrite filter_cons_True by done. cbn.
    assert (Hnone : filter (fun x => P x = true) l = []).
    { apply filter_none, Forall_forall. intros x Hx Px.
      apply list_elem_of_lookup in Hx as [k Hk].
      discriminate (Huniq 0%nat (S k) a x eq_refl Hk Ha Px). }
    rewrite Hnone. cbn. lia.
  - rewrite filter_cons_False by (rewrite Ha; done).
    apply IH. intros j k x y Hj Hk Px Py.
    by injection (Huniq (S j) (S k) x y Hj Hk Px Py).
Qed.

(** X11. The mutex does its work: under every schedule, in every
    state of the fan-out at most one goroutine is between [mut.Lock()]
    and [mut.Unlock()], and none is while the mutex is free. *)
Theorem main_mutual_exclusion worlds inventory sched :
  let s := exec st sched (initial worlds inventory) in
  (length (filter (fun t => holds t = true) (tasks s)) <= 1)%nat
  /\ (mut s = false -> filter (fun t => holds t = true) (tasks s) = []).
Proof.
  intros s.
  pose proof (Inv_exec st _ sched _ (Inv_initial st worlds inventory)) as HI.
  fold s in HI. split.
  - apply unique_at_most_one. apply (inv_excl _ _ _ HI).
  - intros Hm. apply filter_none, Forall_forall. intros t Ht Hh.
    apply list_elem_of_lookup in Ht as [j Hj].
    rewrite (inv_free _ _ _ HI Hm j t Hj) in Hh. discriminate.
Qed.

Lemma step_grows R c s s' :
  Inv st R s -> step st c s = Some s' ->
  MachineData s `prefix_of` MachineData s'.
Proof.
  intros HI. destruct c as [i|]; cbn.
  - unfold stepTask. destruct (tasks s !! i) as [t|] eqn:Hi; [|discriminate].
    destruct t as [w h|m|m|m old| | |]; try discriminate;
      try (intros [= <-]; done).
    + destruct (mut s); [discriminate|]. by intros [= <-].
    + intros [= <-]. cbn. rewrite (inv_loaded _ _ _ HI _ _ _ Hi).
      by apply prefix_app_r.
  - unfold stepMain. destruct (wg s =? 0); [|discriminate]. by intros [= <-].
Qed.

(** X12. What has been appended stays: under every schedule the slice
    [MachineData] only grows at its end, so the host results present
    at one moment are a prefix of the slice at every later moment; no
    goroutine overwrites or drops the result of another. *)
Theorem main_results_kept worlds inventory sched1 sched2 :
  MachineData (exec st sched1 (initial worlds inventory))
  `prefix_of` MachineData (exec st (sched1 ++ sched2) (initial worlds inventory)).
Proof.
  rewrite exec_app.
  pose proof (Inv_exec st _ sched1 _ (Inv_initial st worlds inventory)) as HI.
  revert HI. generalize (exec st sched1 (initial worlds inventory)).
  induction sched2 as [|c sched2 IH]; intros s HI; [done|].
  cbn [exec]. destruct (step st c s) as [s'|] eqn:Hc; [|by apply IH].
  etransitivity; [by eapply step_grows|].
  apply IH. by eapply Inv_step.
Qed.

Lemma alive_none_finished (ts : list Task) :
  length (concat (alive <$> ts)) = 0%nat -> Forall (fun t => t = Finished) ts.
Proof.
  induction ts as [|t ts IH]; [constructor|].
  destruct t; cbn; try discriminate. intros Hts. constructor; [done|by apply IH].
Qed.

(** X13. The report is final once [wg.Wait()] has returned: every
    goroutine has finished, and no further move of any goroutine
    changes the state, so [MachineData] as [main] reads it afterwards is
    what it was at the return of [Wait]. *)
Theorem main_report_final worlds inventory sched sched' :
  let s := exec st sched (initial worlds inventory) in
  joined s = true ->
  Forall (fun t => t = Finished) (tasks s) /\ exec st sched' s = s.
Proof.
  intros s Hj.
  pose proof (Inv_exec st _ sched _ (Inv_initial st worlds inventory)) as HI.
  fold s in HI.
  pose proof (inv_joined _ _ _ HI Hj) as Hz.
  assert (Hfin : Forall (fun t => t = Finished) (tasks s)).
  { apply alive_none_finished. pose proof (inv_wg _ _ _ HI) as Hwg. lia. }
  split; [exact Hfin|].
  induction sched' as [|c sched' IH]; [done|].
  cbn [exec]. destruct c as [i|]; cbn [step].
  - unfold stepTask. destruct (tasks s !! i) as [t|] eqn:Hi; [|exact IH].
    rewrite Forall_forall in Hfin.
    rewrite (Hfin t) by (apply list_elem_of_lookup; eauto). exact IH.
  - unfold stepMain.
    assert ((wg s =? 0) = true) as -> by (by apply Z.eqb_eq).
    replace {| tasks := tasks s; mut := mut s; MachineData := MachineData s;
               wg := wg s; joined := true |} with s; [exact IH|].
    destruct s. cbn in *. by subst.
Qed.

Lemma run_tasks_data n : forall k s,
  (forall i, (k <= i < k + n)%nat ->
             exists w h, tasks s !! i = Some (Spawned w h)) ->
  mut s = false ->
  MachineData (exec st (seq k n ≫= fun i => replicate 6 (Go i)) s)
  = MachineData s ++ concat (pending st <$> take n (drop k (tasks s))).
Proof.
  induction n as [|n IH]; intros k s Hall Hm; cbn [seq mbind list_bind].
  { cbn. by rewrite app_nil_r. }
  destruct (Hall k ltac:(lia)) as (w & h & Hk).
  rewrite exec_app, (run_task st s k w h Hk Hm).
  rewrite IH; cbn [tasks mut MachineData].
  - rewrite drop_insert_lt by lia.
    rewrite (drop_S _ _ _ Hk). cbn. by rewrite <- app_assoc.
  - intros i Hi. rewrite list_lookup_insert_ne by lia. apply Hall. lia.
  - done.
Qed.

(** X14. When the goroutines happen to run one after the other, the
    host results stand in [MachineData] in the order of the inventory:
    the position of a result is decided by the order of completion and
    by nothing else. *)
Theorem main_sequential_order worlds inventory :
  MachineData (exec st (sequential (length inventory))
                 (initial worlds inventory))
  = results st worlds inventory.
Proof.
  unfold sequential. rewrite exec_app.
  set (s := exec st _ (initial worlds inventory)).
  assert (Hs : MachineData s = results st worlds inventory).
  { subst s. rewrite run_tasks_data; cbn [initial tasks mut MachineData].
    - rewrite drop_0, take_ge by (by rewrite length_imap).
      apply pending_initial.
    - intros i Hi.
      destruct (lookup_lt_is_Some_2 inventory i ltac:(lia)) as [h Hh].
      exists (worlds i), h. by rewrite list_lookup_imap, Hh.
    - done. }
  cbn [exec step]. unfold stepMain. by destruct (wg s =? 0).
Qed.

End MainMore.

Section AuthProofs.
Context `{GoLib}.

(** X15. [setAuth] knows three methods and touches only what the
    chosen one needs: any method other than ["key"], ["agent"] and
    ["password"] (the comparison is exact) is refused with
    ["unsupported auth method"], and neither that refusal, nor the
    password method, nor the key method without a key location reads a
    file or talks to the agent; the password method succeeds exactly
    when the password is not empty and then yields that password. *)
Theorem setAuth_methods aw a :
  (opt_auth a <> "key" -> opt_auth a <> "agent" -> opt_auth a <> "password" ->
   setAuth aw a
   = (inr (fundamental ("unsupported auth method: " +:+ opt_auth a +:+ LF +:+ TAB
                        +:+ "must use key, agent or password")), []))
  /\ (opt_auth a = "password" ->
      setAuth aw a
      = (if String.eqb (opt_pass a) ""
         then inr (fundamental "must include SSHpassword when auth=password")
         else inl (Password (opt_pass a)), []))
  /\ (opt_auth a = "key" -> opt_key a = "" ->
      setAuth aw a
      = (inr (fundamental "must include privKeyLocation when auth=key"), []))
  /\ (forall method, (setAuth aw a).1 = inl method ->
      match method with
      | PublicKeys _ => opt_auth a = "key" /\ opt_key a <> ""
      | PublicKeysCallback _ => opt_auth a = "agent"
      | Password p => opt_auth a = "password" /\ p = opt_pass a /\ p <> ""
      end).
Proof.
  unfold setAuth. repeat split.
  - intros Hk Ha Hp.
    destruct (String.eqb_spec (opt_auth a) "key"); [done|].
    destruct (String.eqb_spec (opt_auth a) "agent"); [done|].
    by destruct (String.eqb_spec (opt_auth a) "password").
  - intros ->. cbn. by destruct (String.eqb (opt_pass a) "").
  - by intros -> ->.
  - intros method.
    destruct (String.eqb_spec (opt_auth a) "key") as [Hk|Hk].
    { destruct (String.eqb_spec (opt_key a) "") as [He|He]; [discriminate|].
      destruct (getPrivKey aw (opt_key a)) as [[signer|err] evs];
        [|discriminate].
      by intros [= <-]. }
    destruct (String.eqb_spec (opt_auth a) "agent") as [Ha|Ha].
    { unfold sshAgent. destruct (dialUnix aw _); [discriminate|].
      destruct (agentSigners aw _) as [ss|err]; [|discriminate].
      destruct (Nat.eqb (length ss) 0); [discriminate|].
      by intros [= <-]. }
    destruct (String.eqb_spec (opt_auth a) "password") as [Hp|Hp];
      [|discriminate].
    destruct (String.eqb_spec (opt_pass a) "") as [He|He]; [discriminate|].
    by intros [= <-].
Qed.

(** X16. With auth=key [setAuth] reads the key file once and nothing
    else, and succeeds exactly when the file can be read and its content
    parses as a private key; with auth=agent it dials the socket named
    by the environment variable and succeeds exactly when the socket
    answers and the agent lists at least one signer, so an agent with no
    key loaded is refused. *)
Theorem setAuth_key_agent aw a :
  (opt_auth a = "key" -> opt_key a <> "" ->
   (setAuth aw a).2 = [AuReadFile (opt_key a)]
   /\ forall signer,
        (setAuth aw a).1 = inl (PublicKeys signer)
        <-> exists b, readFile aw (opt_key a) = inl b
                      /\ parsePrivateKey aw b = inl signer)
  /\ (opt_auth a = "agent" ->
      let path := getenv aw (opt_agent a) in
      ((exists method, (setAuth aw a).1 = inl method)
       <-> dialUnix aw path = None
           /\ exists ss, agentSigners aw path = inl ss /\ ss <> [])
      /\ (agentSigners aw path = inl [] -> dialUnix aw path = None ->
          exists err, (setAuth aw a).1 = inr err))
.
Proof.
  unfold setAuth. split.
  - intros -> Hkey. cbn.
    destruct (String.eqb_spec (opt_key a) ""); [done|].
    unfold getPrivKey.
    destruct (readFile aw (opt_key a)) as [b|err] eqn:Hr; cbn.
    + destruct (parsePrivateKey aw b) as [s|err] eqn:Hp; cbn.
      * split; [done|]. intros signer. split.
        -- intros [= <-]. eauto.
        -- intros (b' & [= <-] & Hs). congruence.
      * split; [done|]. intros signer. split; [discriminate|].
        intros (b' & [= <-] & Hs). congruence.
    + split; [done|]. intros signer. split; [discriminate|].
      by intros (b' & ? & _).
  - intros ->. cbn. unfold sshAgent.
    destruct (dialUnix aw (getenv aw (opt_agent a))) as [err|] eqn:Hd; cbn.
    { split; [|done]. split; [by intros [? ?]|by intros [? _]]. }
    destruct (agentSigners aw (getenv aw (opt_agent a))) as [ss|err] eqn:Hs; cbn.
    + destruct ss as [|s ss]; cbn.
      * split; [|by eauto]. split; [by intros [? ?]|].
        by intros (_ & ss' & [= <-] & ?).
      * split; [|discriminate]. split; [|by eauto].
        intros _. split; [done|]. by exists (s :: ss).
    + split; [|discriminate]. split; [by intros [? ?]|].
      by intros (_ & ss' & ? & _).
Qed.

End AuthProofs.

Section InventoryProofs.
Context `{GoLib}.

(** X17. [RetrieveInventory] chooses its source by the prefix of the
    location alone: a location that starts with ["http://"] or
    ["https://"] is fetched with one GET and no file is looked at (so a
    local file of such a name cannot be read); every other location,
    ["HTTP://..."] included, is treated as a file name and causes no
    request. *)
Theorem RetrieveInventory_source iw l :
  (forall rest, l = "http://" +:+ rest \/ l = "https://" +:+ rest ->
     (RetrieveInventory iw l).2 = [IvGet l])
  /\ ((forall rest, l <> "http://" +:+ rest /\ l <> "https://" +:+ rest) ->
      Forall (fun e => isGet e = false) (RetrieveInventory iw l).2
      /\ head (RetrieveInventory iw l).2 = Some (IvStat l)).
Proof.
  unfold RetrieveInventory, matchesURL. split.
  - intros rest Hl.
    assert (String.prefix "http://" l || String.prefix "https://" l = true) as ->.
    { apply orb_true_iff.
      destruct Hl as [-> | ->]; [left|right]; apply prefix_app; by eexists. }
    unfold getInventoryFromURL.
    destruct (httpGet iw l) as [resp|err]; [|done].
    destruct (negb _); [done|]. by destruct (decodeInventory iw _).
  - intros Hl.
    assert (String.prefix "http://" l || String.prefix "https://" l = false) as ->.
    { apply orb_false_iff. split; apply not_true_is_false;
        intros [rest ->]%prefix_app; by destruct (Hl rest). }
    unfold getInventoryFromFile.
    destruct (negb (fileExists iw l)); [by repeat constructor|].
    destruct (openFile iw l) as [text|err]; [|by repeat constructor].
    destruct (decodeInventory iw text); by repeat constructor.
Qed.

(** X18. [RetrieveInventory] returns an inventory only if it decoded
    one: from a URL, when the GET succeeded with status code 200 and the
    body decodes (any other status is an error, whatever the body
    holds); from a file, when the file is not reported missing, opens,
    and its content decodes.  Every error it returns is wrapped with
    the name of the source that failed. *)
Theorem RetrieveInventory_result iw l :
  match (RetrieveInventory iw l).1 with
  | inl inventory =>
      if matchesURL l then
        exists resp, httpGet iw l = inl resp /\ StatusCode resp = 200
                     /\ decodeInventory iw (Body resp) = inl inventory
      else
        stat iw l <> StatNotExist
        /\ exists text, openFile iw l = inl text
                        /\ decodeInventory iw text = inl inventory
  | inr err =>
      exists cause,
        err = errors.Wrap cause
                (if matchesURL l then "could not get inventory from url"
                 else "could not get inventory from file")
  end.
Proof.
  unfold RetrieveInventory. destruct (matchesURL l).
  - unfold getInventoryFromURL.
    destruct (httpGet iw l) as [resp|err] eqn:Hg; [|cbn; by eauto].
    destruct (Z.eqb_spec (StatusCode resp) 200) as [Hs|Hs]; cbn; [|by eauto].
    destruct (decodeInventory iw (Body resp)) as [inv|err] eqn:Hd; cbn;
      by eauto.
  - unfold getInventoryFromFile, fileExists.
    destruct (stat iw l) eqn:Hst; cbn; try (by eauto);
      (destruct (openFile iw l) as [text|oerr] eqn:Ho; [|cbn; by eauto]);
      (destruct (decodeInventory iw text) as [inv|derr] eqn:Hd; cbn;
         [|by eauto]); (split; [done|by eauto]).
Qed.

End InventoryProofs.

Section SetupProofs.
Context `{GoLib}.

Lemma parseEntries_account m :
  (length (setup.parseEntries m).1 + length (setup.parseEntries m).2
   = length m)%nat
  /\ Forall (fun c => sudo c = strings.Contains (cmd c) "sudo")
            (setup.parseEntries m).1
  /\ Forall (fun c => (setup.AString (name c), setup.AString (cmd c)) ∈ m)
            (setup.parseEntries m).1.
Proof.
  induction m as [|[k v] m (IHl & IHs & IHin)]; [by repeat constructor|].
  cbn [setup.parseEntries]. destruct (setup.parseEntries m) as [out logs].
  assert (Hin : Forall (fun c =>
            (setup.AString (name c), setup.AString (cmd c)) ∈ (k, v) :: m) out).
  { eapply Forall_impl; [exact IHin|]. intros c Hc. by right. }
  destruct k as [key|t]; [destruct v as [value|t]|]; cbn in *.
  - split; [lia|]. split; constructor; try done. by left.
  - split; [lia|done].
  - split; [lia|done].
Qed.

(** X19. [parseCommands] accounts for every entry of the configured
    command maps: an entry whose name and command are both strings
    becomes a command, every other entry is dropped with one warning.
    When it succeeds the list is not empty, each command comes from
    such an entry, and its sudo flag is set exactly when the command
    text contains ["sudo"] somewhere (as in ["pseudo"]). *)
Theorem parseCommands_accounts inConfig i out logs :
  setup.parseCommands inConfig (inl i) = (inl out, logs) ->
  out <> []
  /\ (length out + length logs = length (concat i))%nat
  /\ Forall (fun c => (setup.AString (name c), setup.AString (cmd c)) ∈ concat i
                      /\ (sudo c = true <->
                          exists a b, cmd c = a +:+ "sudo" +:+ b)) out.
Proof.
  unfold setup.parseCommands. destruct inConfig; [|discriminate]. cbn.
  destruct (Nat.eqb (length i) 0); [discriminate|].
  assert (Hall : (length (setup.parseMaps i).1 + length (setup.parseMaps i).2
                  = length (concat i))%nat
                 /\ Forall (fun c =>
                      (setup.AString (name c), setup.AString (cmd c)) ∈ concat i
                      /\ sudo c = strings.Contains (cmd c) "sudo")
                    (setup.parseMaps i).1).
  { clear. induction i as [|m i [IHl IHf]]; [by repeat constructor|].
    cbn [setup.parseMaps concat].
    destruct (parseEntries_account m) as (Hl & Hs & Hin).
    destruct (setup.parseEntries m) as [o l].
    destruct (setup.parseMaps i) as [o' l']. cbn in *.
    split; [rewrite !length_app; lia|].
    apply Forall_app. split.
    - apply Forall_forall. intros c Hc. rewrite Forall_forall in Hs, Hin.
      split; [apply elem_of_app; left; by apply Hin|by apply Hs].
    - eapply Forall_impl; [exact IHf|]. intros c [Hc ?].
      split; [apply elem_of_app; by right|done]. }
  destruct (setup.parseMaps i) as [o l]. cbn in Hall.
  destruct o as [|c o]; [discriminate|]. cbn. intros [= <- <-].
  destruct Hall as [Hl Hf]. split; [done|]. split; [done|].
  eapply Forall_impl; [exact Hf|]. intros c' [Hin Hs].
  split; [done|]. by rewrite Hs, Contains_substring.
Qed.

(** X20. A [State] that [importFromViper] returns has an inventory and
    an auth option that were set, the auth method [setAuth] made of the
    configured options, and a connTimeout, retry and retryWait that are
    the configured values and not negative; zero is let through,
    although the error for a negative value asks for a positive one. *)
Theorem importFromViper_valid v aw s evs :
  setup.importFromViper v aw = (inl s, evs) ->
  setup.IsSet v "inventory" = true /\ setup.IsSet v "auth" = true
  /\ setAuth aw {| opt_auth := setup.GetString v "auth";
                   opt_key := setup.GetString v "privKeyLocation";
                   opt_pass := setup.GetString v "SSHpassword";
                   opt_agent := setup.GetString v "agentSSHAuth" |}
     = (inl (auth (setup.engine s)), evs)
  /\ connTimeout (setup.engine s) = setup.GetInt64 v "connTimeout"
  /\ retry (setup.engine s) = setup.GetInt64 v "retry"
  /\ retryWait (setup.engine s) = setup.GetInt64 v "retryWait"
  /\ 0 <= connTimeout (setup.engine s)
  /\ 0 <= retry (setup.engine s)
  /\ 0 <= retryWait (setup.engine s)
  /\ setup.GetCommands v = Some (commands (setup.engine s)).
Proof.
  unfold setup.importFromViper.
  destruct (setup.IsSet v "inventory"); [|discriminate].
  destruct (setup.IsSet v "auth"); [|discriminate]. cbn.
  destruct (setAuth aw _) as [[a|err] evs']; [|discriminate].
  destruct (Z.ltb_spec (setup.GetInt64 v "connTimeout") 0); [discriminate|].
  destruct (Z.ltb_spec (setup.GetInt64 v "retry") 0); [discriminate|].
  destruct (Z.ltb_spec (setup.GetInt64 v "retryWait") 0); [discriminate|].
  cbn. destruct (setup.GetCommands v) as [cs|]; [|discriminate].
  intros [= <- <-]. cbn. by repeat split.
Qed.

(** X21. [importFromViper] checks before it acts: without an inventory
    option, or without an auth option, it fails before [setAuth] runs,
    so no key file is read and no agent is dialled; and a negative
    connTimeout, retry or retryWait is an error whatever else is
    configured. *)
Theorem importFromViper_rejects v aw :
  (setup.IsSet v "inventory" = false \/ setup.IsSet v "auth" = false ->
   (exists err, (setup.importFromViper v aw).1 = inr err)
   /\ (setup.importFromViper v aw).2 = [])
  /\ (setup.GetInt64 v "connTimeout" < 0 \/ setup.GetInt64 v "retry" < 0
      \/ setup.GetInt64 v "retryWait" < 0 ->
      exists err, (setup.importFromViper v aw).1 = inr err).
Proof.
  unfold setup.importFromViper. split.
  - intros [Hi | Ha].
    + rewrite Hi. cbn. by eauto.
    + destruct (setup.IsSet v "inventory"); cbn; [|by eauto].
      rewrite Ha. cbn. by eauto.
  - intros Hneg.
    destruct (setup.IsSet v "inventory"); cbn; [|by eauto].
    destruct (setup.IsSet v "auth"); cbn; [|by eauto].
    destruct (setAuth aw _) as [[a|err] evs']; cbn; [|by eauto].
    assert ((setup.GetInt64 v "connTimeout" <? 0)
            || (setup.GetInt64 v "retry" <? 0)
            || (setup.GetInt64 v "retryWait" <? 0) = true) as ->; [|cbn; by eauto].
    destruct (Z.ltb_spec (setup.GetInt64 v "connTimeout") 0); [done|].
    destruct (Z.ltb_spec (setup.GetInt64 v "retry") 0); [done|].
    destruct (Z.ltb_spec (setup.GetInt64 v "retryWait") 0); [done|lia].
Qed.

End SetupProofs.

Section CleanupProofs.
Context `{GoLib}.

Lemma list_ascii_app (s t : string) :
  list_ascii_of_string (s +:+ t)
  = list_ascii_of_string s ++ list_ascii_of_string t.
Proof. induction s as [|a s IH]; [done|]. simpl. f_equal. exact IH. Qed.

Lemma scanSplit_file n : forall rest acc,
  Forall (fun a => filepath.isSeparator a = false) n ->
  filepath.scanSplit (n ++ rest) acc
  = filepath.scanSplit rest (rev n ++ acc).
Proof.
  induction n as [|a n IH]; intros rest acc Hn; [done|].
  apply Forall_cons in Hn as [Ha Hn]. cbn [app filepath.scanSplit].
  rewrite Ha, IH by done. cbn [rev]. by rewrite <- app_assoc.
Qed.

(** The file part of a path is what follows its last slash. *)
Lemma Split_file d n :
  Forall (fun a => filepath.isSeparator a = false) (list_ascii_of_string n) ->
  (filepath.Split n).2 = n /\ (filepath.Split (d +:+ "/" +:+ n)).2 = n.
Proof.
  intros Hn.
  assert (Hrev : Forall (fun a => filepath.isSeparator a = false)
                        (rev (list_ascii_of_string n))).
  { apply Forall_forall. intros a Ha. rewrite Forall_forall in Hn.
    apply Hn. apply list_elem_of_In. apply in_rev.
    by apply list_elem_of_In. }
  unfold filepath.Split. split.
  - rewrite <- (app_nil_r (rev _)), scanSplit_file by done.
    cbn. by rewrite rev_involutive, app_nil_r, string_of_list_ascii_of_string.
  - rewrite !list_ascii_app, !rev_app_distr, <- app_assoc.
    rewrite scanSplit_file by done. cbn.
    by rewrite rev_involutive, app_nil_r, string_of_list_ascii_of_string.
Qed.

Lemma keepNames_lookup files k :
  is_Some (keepNames files !! k)
  <-> k ∈ (fun f => (filepath.Split f).2) <$> files.
Proof.
  unfold keepNames.
  assert (Hgen : forall acc : gmap string bool,
    is_Some (foldl (fun lookup f => <[(filepath.Split f).2 := true]> lookup)
               acc files !! k)
    <-> is_Some (acc !! k) \/ k ∈ (fun f => (filepath.Split f).2) <$> files).
  { induction files as [|f files IH]; intros acc; cbn.
    - rewrite elem_of_nil. tauto.
    - rewrite IH, elem_of_cons.
      destruct (decide ((filepath.Split f).2 = k)) as [<-|Hne].
      + rewrite lookup_insert_eq. split; [by eauto|by eauto].
      + rewrite lookup_insert_ne by done. split; intros [?|?]; auto.
        destruct H0 as [->|?]; [done|auto]. }
  rewrite Hgen, lookup_empty. split; [intros [[? ?]|?]; done|auto].
Qed.

Lemma removeEntries_spec dw dirName lookup fs name :
  name ∈ (removeEntries dw dirName lookup fs).2
  <-> exists f, f ∈ fs /\ fi_name f = name /\ lookup !! name = None
                /\ fi_regular f = true /\ filepath.Ext name = ".json".
Proof.
  induction fs as [|f fs IH]; cbn [removeEntries].
  - rewrite elem_of_nil. split; [done|]. intros (f & Hf & _).
    by apply elem_of_nil in Hf.
  - destruct (removeEntries dw dirName lookup fs) as [errs removed].
    cbn [snd] in IH.
    assert (Hrest : name ∈ removed
              -> exists f0, f0 ∈ f :: fs /\ fi_name f0 = name
                           /\ lookup !! name = None /\ fi_regular f0 = true
                           /\ filepath.Ext name = ".json").
    { intros (f0 & ? & ?)%IH. exists f0. split; [by right|done]. }
    assert (Hback : forall f0, f0 ∈ fs -> fi_name f0 = name ->
              lookup !! name = None -> fi_regular f0 = true ->
              filepath.Ext name = ".json" -> name ∈ removed).
    { intros f0 ? ? ? ? ?. apply IH. by exists f0. }
    destruct (lookup !! fi_name f) eqn:Hl; cbn.
    { split; [exact Hrest|]. intros (f0 & [->|Hin]%elem_of_cons & Hn & Hk & Hr & He).
      - congruence.
      - by eapply Hback. }
    destruct (fi_regular f) eqn:Hreg; cbn.
    2: { split; [exact Hrest|].
         intros (f0 & [->|Hin]%elem_of_cons & Hn & Hk & Hr & He);
           [congruence|by eapply Hback]. }
    destruct (String.eqb_spec (filepath.Ext (fi_name f)) ".json") as [Hext|Hext].
    2: { split; [exact Hrest|].
         intros (f0 & [->|Hin]%elem_of_cons & Hn & Hk & Hr & He);
           [congruence|by eapply Hback]. }
    assert (Hhere : name ∈ fi_name f :: removed
              <-> exists f0, f0 ∈ f :: fs /\ fi_name f0 = name
                            /\ lookup !! name = None /\ fi_regular f0 = true
                            /\ filepath.Ext name = ".json").
    { rewrite elem_of_cons. split.
      - intros [->|Hin]; [|by apply Hrest].
        exists f. split; [by left|done].
      - intros (f0 & [->|Hin]%elem_of_cons & Hn & Hk & Hr & He);
          [by left|right; by eapply Hback]. }
    by destruct (removeFile dw dirName (fi_name f)).
Qed.

Lemma removeEntries_errors dw dirName lookup fs :
  (removeEntries dw dirName lookup fs).1
  = omap (fun n => (fun err => errors.Wrap err "removing JSON file")
                     <$> removeFile dw dirName n)
         (removeEntries dw dirName lookup fs).2.
Proof.
  induction fs as [|f fs IH]; cbn [removeEntries]; [done|].
  destruct (removeEntries dw dirName lookup fs) as [errs removed].
  cbn [fst snd] in IH.
  destruct (lookup !! fi_name f); [done|].
  destruct (fi_regular f && _); [|done].
  destruct (removeFile dw dirName (fi_name f)) as [err|] eqn:Hr;
    cbn; rewrite Hr; cbn; by rewrite <- IH.
Qed.

(** X22. [CleanUpExcept] never deletes a file it was told to keep, and
    it goes by the file name alone: for a name without a slash, naming
    the file bare or behind any directory path keeps it out of the calls
    to [os.Remove]. *)
Theorem CleanUpExcept_keeps dw dirName files d n :
  Forall (fun a => filepath.isSeparator a = false) (list_ascii_of_string n) ->
  n ∈ files \/ d +:+ "/" +:+ n ∈ files ->
  n ∉ (CleanUpExcept dw dirName files).2.
Proof.
  intros Hn Hin. destruct (Split_file d n Hn) as [Hbare Hpath].
  assert (Hkept : is_Some (keepNames files !! n)).
  { apply keepNames_lookup, list_elem_of_fmap.
    destruct Hin as [Hin|Hin];
      [exists n|exists (d +:+ "/" +:+ n)]; by split. }
  unfold CleanUpExcept. destruct (openDir dw dirName); [apply not_elem_of_nil|].
  intros (f & _ & _ & Hnone & _)%removeEntries_spec.
  rewrite Hnone in Hkept. by destruct Hkept.
Qed.

Lemma Ext_json s : filepath.Ext (s +:+ ".json") = ".json".
Proof.
  unfold filepath.Ext. rewrite list_ascii_app, rev_app_distr. reflexivity.
Qed.

(** X23. What [CleanUpExcept] deletes: when the directory opens, it
    hands to [os.Remove] exactly the entries that are regular files,
    have the extension [.json] and are not named among the files to
    keep (so every regular file named [<anything>.json] that is not kept
    goes), and it returns one wrapped error for each removal that
    failed; when the directory does not open it removes nothing and
    returns that one error. *)
Theorem CleanUpExcept_removes dw dirName files :
  match openDir dw dirName with
  | Some err =>
      CleanUpExcept dw dirName files
      = ([errors.Wrap err ("error opening directory: [" +:+ dirName +:+ "]")], [])
  | None =>
      (forall name,
         name ∈ (CleanUpExcept dw dirName files).2
         <-> exists f, f ∈ (readdir dw dirName).1 /\ fi_name f = name
                       /\ fi_regular f = true /\ filepath.Ext name = ".json"
                       /\ name ∉ (fun f => (filepath.Split f).2) <$> files)
      /\ (forall f s, f ∈ (readdir dw dirName).1 -> fi_regular f = true ->
            fi_name f = s +:+ ".json" ->
            fi_name f ∉ (fun f => (filepath.Split f).2) <$> files ->
            fi_name f ∈ (CleanUpExcept dw dirName files).2)
      /\ (CleanUpExcept dw dirName files).1
         = omap (fun n => (fun err => errors.Wrap err "removing JSON file")
                            <$> removeFile dw dirName n)
                (CleanUpExcept dw dirName files).2
  end.
Proof.
  unfold CleanUpExcept. destruct (openDir dw dirName) as [err|]; [done|].
  assert (Hspec : forall name,
         name ∈ (removeEntries dw dirName (keepNames files)
                   (readdir dw dirName).1).2
         <-> exists f, f ∈ (readdir dw dirName).1 /\ fi_name f = name
                       /\ fi_regular f = true /\ filepath.Ext name = ".json"
                       /\ name ∉ (fun f => (filepath.Split f).2) <$> files).
  { intros name. rewrite removeEntries_spec. split.
    - intros (f & Hf & Hn & Hk & Hr & He). exists f. repeat split; try done.
      intros Hin%keepNames_lookup. rewrite Hk in Hin. by destruct Hin.
    - intros (f & Hf & Hn & Hr & He & Hk). exists f. repeat split; try done.
      destruct (keepNames files !! name) eqn:Hl; [|done].
      exfalso. apply Hk, keepNames_lookup. by eauto. }
  split; [exact Hspec|]. split; [|apply removeEntries_errors].
  intros f s Hf Hr Hs Hk. apply Hspec. exists f. repeat split; try done.
  rewrite Hs. apply Ext_json.
Qed.

Lemma removeJSON_removeEntries dw dir fs :
  (removeJSON dw dir fs).2 = (removeEntries dw dir ∅ fs).2
  /\ length (removeJSON dw dir fs).1 = length (removeEntries dw dir ∅ fs).1.
Proof.
  induction fs as [|f fs [IH1 IH2]]; [done|].
  cbn [removeJSON removeEntries]. rewrite lookup_empty.
  destruct (removeJSON dw dir fs) as [e1 r1].
  destruct (removeEntries dw dir ∅ fs) as [e2 r2]. cbn in IH1, IH2. subst r2.
  destruct (fi_regular f && _); [|done].
  destruct (removeFile dw dir (fi_name f)); cbn; by rewrite ?IH2.
Qed.

(** X24. The two cleaners agree where they overlap: when the directory
    opens and can be listed, [cleanupJSON] hands to [os.Remove] the same
    files, in the same order, as [CleanUpExcept] does when it is told to
    keep nothing, and returns as many errors.  They differ when the
    listing fails: [cleanupJSON] then removes nothing and reports the
    failure, while [CleanUpExcept] goes on with whatever entries were
    returned and does not report it. *)
Theorem cleanupJSON_CleanUpExcept dw dir :
  openDir dw dir = None ->
  match (readdir dw dir).2 with
  | None =>
      (cleanupJSON dw dir).2 = (CleanUpExcept dw dir []).2
      /\ length (cleanupJSON dw dir).1 = length (CleanUpExcept dw dir []).1
  | Some err =>
      cleanupJSON dw dir
      = ([errors.Wrap err ("Error reading files from [" +:+ dir +:+ "]")], [])
      /\ CleanUpExcept dw dir [] = removeEntries dw dir ∅ (readdir dw dir).1
  end.
Proof.
  intros Ho. unfold cleanupJSON, CleanUpExcept. rewrite Ho. cbn [keepNames foldl].
  destruct (readdir dw dir) as [fs [err|]]; cbn [fst snd]; [done|].
  apply removeJSON_removeEntries.
Qed.

End CleanupProofs.

Section DialMore.
Context `{GoLib}.


End DialMore.

Section TotalTimeProofs.

(** X26. The total time [main] reports is the elapsed time cut down to
    whole milliseconds: for every elapsed time an [int64] can hold it is
    a multiple of a millisecond, lies between zero and the elapsed time
    (on the same side of zero), and is less than a millisecond away from
    it; nothing overflows. *)
Theorem totalTime_truncates elapsed :
  - 2 ^ 63 <= elapsed < 2 ^ 63 ->
  (exists k, totalTime elapsed = k * Millisecond)
  /\ Z.abs (totalTime elapsed) <= Z.abs elapsed
  /\ Z.abs (elapsed - totalTime elapsed) < Millisecond
  /\ (0 <= elapsed -> 0 <= totalTime elapsed <= elapsed).
Proof.
  intros Hr. unfold totalTime, Millisecond.
  pose proof (Z.quot_rem' elapsed 1000000) as Hqr.
  assert (Hrem : Z.abs (Z.rem elapsed 1000000) < 1000000
                 /\ Z.abs (Z.rem elapsed 1000000) <= Z.abs elapsed
                 /\ (0 <= elapsed -> 0 <= Z.rem elapsed 1000000 <= elapsed)
                 /\ (elapsed <= 0 -> elapsed <= Z.rem elapsed 1000000 <= 0)).
  { destruct (Z.le_gt_cases 0 elapsed).
    - pose proof (Z.rem_le elapsed 1000000).
      pose proof (Z.rem_bound_pos elapsed 1000000). lia.
    - pose proof (Z.rem_opp_l' elapsed 1000000) as Ho.
      pose proof (Z.rem_le (- elapsed) 1000000).
      pose proof (Z.rem_bound_pos (- elapsed) 1000000). lia. }
  destruct Hrem as (Hlt & Hle & Hp & Hn).
  rewrite (wrap64_small (Z.rem elapsed 1000000)) by lia.
  rewrite wrap64_small by lia.
  repeat split; try lia.
  exists (Z.quot elapsed 1000000). lia.
Qed.

End TotalTimeProofs.

(** * The properties on concrete inputs *)

Section Concrete.
#[local] Existing Instance Sample.lib.

Import Sample.

Lemma main_one_result_per_host_witness :
  let st := policy false 0 2 1 in
  let worlds := fun i : nat => if Nat.even i then reachable else unreachable in
  let inventory := [host "a.example.org" ""; host "b.example.org" "2222";
                    host "localhost" "22"] in
  let sched := [Go 1; Go 0; Go 2; Go 2; Go 1; Go 0; Go 2; Go 1; Go 2; Go 1; Go 1;
                Main; Go 2; Go 2; Go 0; Go 1; Go 0; Go 0; Go 0; Go 0; Main;
                Go 1; Go 1; Go 1; Go 1; Go 1; Main] in
  joined (exec st sched (initial worlds inventory)) = true
  /\ length (MachineData (exec st sched (initial worlds inventory))) = 3%nat
  /\ (fun m => HostName (Info m)) <$> MachineData (exec st sched (initial worlds inventory))
     = ["localhost"; "a.example.org"; "b.example.org"].
Proof.
  intros st worlds inventory sched.
  split; [vm_compute; reflexivity|].
  split; [|vm_compute; reflexivity].
  apply (main_one_result_per_host st worlds inventory sched).
  vm_compute; reflexivity.
Defined.

Lemma executeCommands_outcomes_witness :
  let client :=
    scripted (fun i => if Nat.eqb i 2
                       then Some (LibError "*ssh.OpenChannelError"
                                    "ssh: rejected: resource shortage")
                       else None)
             (fun i => match i with
                       | O => Some (ExitError {| status := 1; signal := ""; msg := "" |})
                       | _ => Some ExitMissingError
                       end) "out" in
  let cs := [ {| name := "a"; cmd := "false"; sudo := false |};
              {| name := "b"; cmd := "kill -9 $$"; sudo := false |};
              {| name := "c"; cmd := "uptime"; sudo := false |} ] in
  cs !! 1%nat = Some {| name := "b"; cmd := "kill -9 $$"; sudo := false |}
  /\ length (executeCommands client cs).1.1 = 3%nat
  /\ ExitCode <$> (executeCommands client cs).1.1 = [1; -1; -1].
Proof.
  intros client cs.
  split; [reflexivity|]. split; [|vm_compute; reflexivity].
  exact (proj1 (executeCommands_outcomes client cs 1 _ eq_refl)).
Defined.

(** The outcome of a command whose [Run] fails with an error that is
    neither an exit status nor a missing exit status, after output was
    captured, is none of the three outcomes the specification names. *)
Lemma executeCommands_fourth_outcome :
  let client :=
    scripted (fun _ => None)
             (fun _ => Some (LibError "*errors.errorString" "EOF")) "partial" in
  let c := {| name := "up"; cmd := "uptime"; sudo := false |} in
  outcome client 0 c = RunFailed (LibError "*errors.errorString" "EOF")
  /\ (runCommand client 0 c).1.1
     = {| Name := "up"; Stdout := "partial"; Stderr := ""; ExitCode := -1;
          StreamErrors := ["Failed session Run: [*errors.errorString]: EOF"] |}
  /\ ~ claimed_outcome client 0 c (runCommand client 0 c).1.1.
Proof.
  intros client c. split; [reflexivity|]. split; [reflexivity|].
  intros [(code & Ho & _) | [(_ & text & Ht) | (_ & _ & Hout & _)]].
  - discriminate Ho.
  - vm_compute in Ht. discriminate Ht.
  - discriminate Hout.
Qed.

Lemma Connect_attempts_witness :
  let conf := {| User := "ops"; Auth := [Password "secret"];
                 HostKeyCheck := InsecureIgnoreHostKey;
                 Timeout := wrap64 (10 * Second) |} in
  let m := NewMachine (host "db1.example.org" "22") in
  (forall j, dial_took (dial unreachable j (address m) conf) = 0
             /\ exists e, dial_result (dial unreachable j (address m) conf) = inr e)
  /\ Connect unreachable m conf 2 1
     = (inr refused, 2 * (1 * Second),
        [EvDial "db1.example.org:22" conf; EvSleep (1 * Second);
         EvDial "db1.example.org:22" conf; EvSleep (1 * Second);
         EvDial "db1.example.org:22" conf]).
Proof.
  intros conf m.
  assert (Hfail : forall j, dial_took (dial unreachable j (address m) conf) = 0
             /\ exists e, dial_result (dial unreachable j (address m) conf) = inr e).
  { intros j. split; [reflexivity|]. eexists. reflexivity. }
  split; [exact Hfail|].
  apply (proj1 (proj2 (Connect_attempts unreachable m conf 10 1))).
  - reflexivity.
  - lia.
  - lia.
  - vm_compute; reflexivity.
  - exact Hfail.
  - reflexivity.
Defined.

(** A timeout of 9223372037 seconds passes the test of
    [importFromViper] and is not zero, yet in nanoseconds it no longer
    fits in 64 bits: the context has expired when it is made.  Every dial
    fails at once, three dials are made, and [Connect] answers the error
    of the expired context, not the error of the last dial. *)
Lemma Connect_attempts_counterexample :
  let st := policy false 9223372037 2 1 in
  let conf := {| User := "ops"; Auth := [auth st];
                 HostKeyCheck := InsecureIgnoreHostKey;
                 Timeout := wrap64 (connTimeout st * Second) |} in
  let m := NewMachine (host "db1.example.org" "22") in
  (connTimeout st <? 0) || (retry st <? 0) || (retryWait st <? 0) = false
  /\ connTimeout st <> 0
  /\ Timeout conf = -9223372036709551616
  /\ (forall j, dial unreachable j (address m) conf
                = {| dial_took := 0; dial_result := inr refused |})
  /\ length (filter (fun e => isDial e = true)
               (Connect unreachable m conf (retry st) (retryWait st)).2) = 3%nat
  /\ (Connect unreachable m conf (retry st) (retryWait st)).1
     = (inr (deadlineError 2 1), 0)
  /\ (Connect unreachable m conf (retry st) (retryWait st)).1.1 <> inr refused
  /\ ConnectionErrors (Run st unreachable m).1
     = ["failed client connection: Retried 2 time(s) with a 1s wait. No more retries!"].
Proof.
  intros st conf m.
  split; [reflexivity|]. split; [discriminate|].
  split; [vm_compute; reflexivity|]. split; [reflexivity|].
  split; [vm_compute; reflexivity|]. split; [vm_compute; reflexivity|].
  split; [|vm_compute; reflexivity].
  intros Heq. vm_compute in Heq. discriminate Heq.
Qed.

Lemma Connect_deadline_witness :
  let conf := {| User := "ops"; Auth := [Password "secret"];
                 HostKeyCheck := InsecureIgnoreHostKey;
                 Timeout := wrap64 (1 * Second) |} in
  let m := NewMachine (host "db1.example.org" "22") in
  let w := slow (3 * Second) in
  (1 + 2 * 1 + 2 * 1 + 1) * Second < 2 ^ 63
  /\ loop_took (dialLoop w (address m) conf 1 2 0) = 11 * Second
  /\ (Connect w m conf 2 1).1 = (inr (deadlineError 2 1), 6 * Second)
  /\ (Connect w m conf 2 1).1.1 <> inr refused.
Proof.
  intros conf m w.
  assert (Hb : (1 + 2 * 1 + 2 * 1 + 1) * Second < 2 ^ 63)
    by (vm_compute; reflexivity).
  split; [exact Hb|]. split; [vm_compute; reflexivity|].
  pose proof (Connect_deadline w m conf 1 2 1 ltac:(lia) ltac:(lia) ltac:(lia)
                Hb eq_refl) as P.
  cbv zeta in P. destruct P as (_ & _ & _ & _ & Hlate).
  destruct Hlate as (HC & _ & Hd); [vm_compute; reflexivity|].
  split; [exact HC|].
  refine (proj2 (Hd _) 2%nat).
  intros j e Hj. injection Hj as <-. reflexivity.
Defined.

(** A timeout of 9223372037 seconds is one [importFromViper] accepts,
    and is not zero.  The deadline line 301 computes from it is negative,
    not the sum the formula names, so that the context has expired when
    it is made: against a server that accepts the first dial after one
    second, [Connect] answers the deadline error at once. *)
Lemma Connect_deadline_counterexample :
  let T := 9223372037 in
  let conf := {| User := "ops"; Auth := [Password "secret"];
                 HostKeyCheck := InsecureIgnoreHostKey;
                 Timeout := wrap64 (T * Second) |} in
  let m := NewMachine (host "db1.example.org" "22") in
  (exists s, setup.importFromViper (Fixtures.sampleViper T) Fixtures.noAuthWorld
             = (inl s, [])
             /\ connTimeout (setup.engine s) = T)
  /\ Timeout conf <> 0
  /\ deadline (Timeout conf) 2 1 = -9223372034419103232
  /\ deadline (Timeout conf) 2 1 <> (T + 2 * 1 + 2 * T) * Second
  /\ ctxExpiry (Timeout conf) 2 1 = 0
  /\ dialLoop reachable (address m) conf 1 2 0
     = {| loop_result := inl obedient; loop_took := 1 * Second;
          loop_events := [EvDial (address m) conf] |}
  /\ (Connect reachable m conf 2 1).1 = (inr (deadlineError 2 1), 0).
Proof.
  intros T conf m.
  split; [eexists; split; reflexivity|].
  split; [vm_compute; discriminate|].
  split; [vm_compute; reflexivity|].
  split; [vm_compute; discriminate|].
  split; [vm_compute; reflexivity|].
  split; [vm_compute; reflexivity|].
  vm_compute; reflexivity.
Qed.

Lemma Run_port_witness :
  let st := policy false 10 2 1 in
  let m := NewMachine (host "db1.example.org" "70000") in
  loopback m = false
  /\ validPort (Port (Info m)) = false
  /\ Connection (Run st reachable m).1 = false
  /\ ConnectionErrors (Run st reachable m).1
     = ["failed port validation: invalid port: [70000]"]
  /\ (Run st reachable m).2 = [].
Proof.
  intros st m.
  split; [reflexivity|]. split; [reflexivity|].
  destruct (Run_port st reachable m eq_refl) as (_ & Hbad & _).
  destruct Hbad as (Hc & _ & Hev & _); [discriminate|reflexivity|].
  split; [exact Hc|]. split; [vm_compute; reflexivity|exact Hev].
Defined.

(** A host result is emitted with a port that is no integer, and one
    with a port that is empty. *)
Lemma Run_port_counterexample :
  let st := policy false 10 2 1 in
  Port (Info (Run st reachable (NewMachine (host "db1.example.org" "abc"))).1)
  = "abc"
  /\ strconv.Atoi "abc" = inr strconv.ErrSyntax
  /\ Port (Info (Run st reachable (NewMachine (host "localhost" ""))).1) = ""
  /\ strconv.Atoi "" = inr strconv.ErrSyntax.
Proof. repeat split; vm_compute; reflexivity. Qed.

Lemma Run_loopback_witness :
  let st := policy true 10 2 1 in
  let m := NewMachine (host "localhost" "22") in
  Run st reachable m
  = (failed m 0
       "[localhost] is not supported. Consider creating a feature proposal", []).
Proof.
  intros st m.
  destruct (Run_loopback st reachable m) as (Hc & He & Hev); [by right|].
  destruct (Run st reachable m) as [r evs] eqn:HR. cbn in Hc, He, Hev.
  subst evs. f_equal. vm_compute in HR. by injection HR as <-.
Defined.


Lemma Run_failure_single_error_witness :
  let st := policy false 0 2 1 in
  let m := NewMachine (host "db1.example.org" "2222") in
  Connection (Run st unreachable m).1 = false
  /\ length (ConnectionErrors (Run st unreachable m).1) = 1%nat.
Proof.
  intros st m. split; [reflexivity|].
  apply (Run_failure_single_error st unreachable m). reflexivity.
Defined.

Lemma checkHostKey_first_match_witness :
  In "example.com ssh-rsa AAAAex" known
  /\ checkHostKey reachable "example.com" "22" = inl "AAAAmy".
Proof.
  split; [vm_compute; tauto|].
  apply (checkHostKey_first_match reachable "example.com" "22"
           ["# comment line"] "myexample.com ssh-rsa AAAAmy"
           ["example.com ssh-rsa AAAAex"; "[example.com]:2222 ssh-ed25519 AAAAalt"]
           "my" "" "AAAAmy").
  - reflexivity.
  - repeat constructor.
  - reflexivity.
  - reflexivity.
  - reflexivity.
Defined.

Lemma setSSHPort_normal_form_witness :
  let m := NewMachine (host "db1.example.org" "+0022") in
  setSSHPort m = (withPort m "22", None)
  /\ setSSHPort (withPort m "22") = (withPort m "22", None)
  /\ strconv.Atoi "22" = strconv.Atoi "+0022".
Proof.
  intros m. split; [reflexivity|].
  destruct (setSSHPort_normal_form m (withPort m "22") eq_refl) as [H1 H2].
  split; [exact H1|]. apply H2. discriminate.
Defined.

Lemma Connect_within_deadline_witness :
  let conf := {| User := "ops"; Auth := [Password "secret"];
                 HostKeyCheck := InsecureIgnoreHostKey;
                 Timeout := wrap64 (2 * Second) |} in
  let m := NewMachine (host "db1.example.org" "22") in
  let w := slow (2 * Second) in
  (forall j, 0 <= dial_took (dial w j (address m) conf) <= 2 * Second)
  /\ (Connect w m conf 2 1).1 = (inr refused, 8 * Second).
Proof.
  intros conf m w.
  assert (Hd : forall j, 0 <= dial_took (dial w j (address m) conf) <= 2 * Second).
  { intros j. cbn. unfold Second. lia. }
  split; [exact Hd|].
  destruct (Connect_within_deadline w m conf 2 2 1) as [_ HC];
    [lia|lia|lia|vm_compute; reflexivity|reflexivity|exact Hd|].
  rewrite HC. vm_compute. reflexivity.
Defined.

Lemma checkHostKey_sound_witness :
  checkHostKey reachable "example.com" "2222" = inl "AAAAalt"
  /\ exists lines line a b,
       known_hosts reachable = inl lines /\ line ∈ lines
       /\ countByte " " line = 2%nat
       /\ nth 0 (strings.Split line " ") ""
          = a +:+ hostport "example.com" "2222" +:+ b
       /\ ParseAuthorizedKey line = inl "AAAAalt".
Proof.
  split; [reflexivity|].
  apply (checkHostKey_sound reachable "example.com" "2222" "AAAAalt").
  reflexivity.
Defined.

Lemma checkHostKey_first_match_unparsable_witness :
  let w := {| known_hosts := inl ["example.com rsa broken";
                                  "example.com ssh-rsa AAAAex"];
              dial := dial reachable; select_tie := false |} in
  exists err, checkHostKey w "example.com" "22" = inr err.
Proof.
  intros w. eexists.
  apply (checkHostKey_first_match_unparsable w "example.com" "22" []
           "example.com rsa broken" ["example.com ssh-rsa AAAAex"]).
  - reflexivity.
  - constructor.
  - reflexivity.
  - reflexivity.
Defined.

Lemma main_report_final_witness :
  let st := policy false 0 0 0 in
  let inventory := [host "a.example.org" ""; host "localhost" ""] in
  let s := exec st (sequential 2) (initial (fun _ => unreachable) inventory) in
  joined s = true
  /\ exec st [Go 0; Go 1; Main; Go 0] s = s.
Proof.
  intros st inventory s.
  assert (Hj : joined s = true) by (vm_compute; reflexivity).
  split; [exact Hj|].
  pose proof (main_report_final st (fun _ => unreachable) inventory
                (sequential 2) [Go 0; Go 1; Main; Go 0]) as P.
  cbv zeta in P. fold s in P.
  exact (proj2 (P Hj)).
Defined.

Lemma parseCommands_accounts_witness :
  let i := [ [(setup.AString "up", setup.AString "uptime")];
             [(setup.AString "who", setup.AOther "42")];
             [(setup.AString "logs", setup.AString "sudo tail /var/log/syslog")] ] in
  exists out logs,
    setup.parseCommands true (inl i) = (inl out, logs)
    /\ sudo <$> out = [false; true]
    /\ (length out + length logs = 3)%nat.
Proof.
  intros i. eexists _, _. split; [reflexivity|]. split; [reflexivity|].
  exact (proj1 (proj2 (parseCommands_accounts true i _ _ eq_refl))).
Defined.

Lemma importFromViper_valid_witness :
  exists s,
    setup.importFromViper (Fixtures.sampleViper 0) Fixtures.noAuthWorld = (inl s, [])
    /\ connTimeout (setup.engine s) = 0
    /\ auth (setup.engine s) = Password "secret".
Proof.
  eexists. split; [reflexivity|].
  destruct (importFromViper_valid (Fixtures.sampleViper 0) Fixtures.noAuthWorld _ [] eq_refl)
    as (_ & _ & _ & Ht & _).
  split; [exact Ht|reflexivity].
Defined.

Lemma CleanUpExcept_keeps_witness :
  CleanUpExcept Fixtures.sampleDir "raw" ["raw/raw_20180102_000000.json"]
  = ([errors.Wrap (LibError "*fs.PathError" "permission denied")
        "removing JSON file"],
     ["raw_20180101_000000.json"])
  /\ "raw_20180102_000000.json"
     ∉ (CleanUpExcept Fixtures.sampleDir "raw" ["raw/raw_20180102_000000.json"]).2.
Proof.
  split; [vm_compute; reflexivity|].
  apply (CleanUpExcept_keeps Fixtures.sampleDir "raw" ["raw/raw_20180102_000000.json"]
           "raw" "raw_20180102_000000.json").
  - repeat constructor.
  - right. by left.
Defined.

Lemma cleanupJSON_CleanUpExcept_witness :
  openDir Fixtures.sampleDir "raw" = None
  /\ (cleanupJSON Fixtures.sampleDir "raw").2
     = ["raw_20180101_000000.json"; "raw_20180102_000000.json"]
  /\ (cleanupJSON Fixtures.sampleDir "raw").2 = (CleanUpExcept Fixtures.sampleDir "raw" []).2.
Proof.
  split; [reflexivity|]. split; [vm_compute; reflexivity|].
  exact (proj1 (cleanupJSON_CleanUpExcept Fixtures.sampleDir "raw" eq_refl)).
Defined.

Lemma totalTime_truncates_witness :
  - 2 ^ 63 <= 12345678901 < 2 ^ 63
  /\ totalTime 12345678901 = 12345 * Millisecond
  /\ Z.abs (12345678901 - totalTime 12345678901) < Millisecond.
Proof.
  split; [lia|]. split; [reflexivity|].
  exact (proj1 (proj2 (proj2 (totalTime_truncates 12345678901 ltac:(lia))))).
Defined.

End Concrete.
